(** * decorate-it: a shallow embedding of [src/decorator.js]

    The decorator wraps service operations with validation (Joi) and
    logging (bunyan).  This development embeds the serializer
    ([_sanitizeObject], [_serializeObject]), the argument mapper
    ([_combineObject]), the global configuration ([configure], [resetId])
    and the two wrappers ([validate], [log]) together with their
    composition ([decorate]), and proves properties of them.

    Modelling conventions.
    - JavaScript values are primitives or references; plain objects and
      arrays live in a heap and are compared by identity, exactly as
      [seen.indexOf(value)] compares them.  Functions are opaque callable
      objects without own enumerable properties.  Values with a [toJSON]
      method, accessors, symbols, BigInts and non-finite numbers are
      outside the model.
    - An object is the list of its own enumerable properties in
      enumeration order.
    - [JSON.parse (JSON.stringify x replacer)] is modelled by the tree the
      text denotes, [JSON.stringify] returning [undefined] by [None].
    - [util.inspect], [Joi.attempt] and the wrapped operations are
      parameters. *)

From Stdlib Require Import List String ZArith Bool Lia Arith.
From Stdlib Require Import Decimal DecimalString.
Import ListNotations.
Local Open Scope string_scope.

Set Warnings "-register-all".

(** ** JavaScript values *)

Definition loc := nat.

Inductive value : Type :=
| VUndefined
| VNull
| VBool (b : bool)
| VNum (n : Z)
| VStr (s : string)
| VFun (f : loc)
| VRef (l : loc).

Inductive cell : Type :=
| CObj (fields : list (string * value))
| CArr (elems : list value).

Definition heap := list cell.

Definition value_eq_dec (a b : value) : {a = b} + {a <> b}.
Proof.
  decide equality;
    first [apply Z.eq_dec | apply string_dec | apply bool_dec | apply Nat.eq_dec].
Defined.

(** [a === b] *)
Definition strict_eq (a b : value) : bool :=
  if value_eq_dec a b then true else false.

(** [arr.indexOf(v) !== -1] *)
Definition indexOf_found (arr : list value) (v : value) : bool :=
  existsb (strict_eq v) arr.

Definition get_cell (h : heap) (l : loc) : cell := nth l h (CObj []).

Fixpoint assoc (k : string) (fs : list (string * value)) : value :=
  match fs with
  | [] => VUndefined
  | (k', v) :: rest => if String.eqb k k' then v else assoc k rest
  end.

(** Property read [v.k] for the names the replacer reads; the receivers
    are guarded by a truthiness test in the source, so the read never
    fails. *)
Definition get (h : heap) (v : value) (k : string) : value :=
  match v with
  | VRef l => match get_cell h l with
              | CObj fs => assoc k fs
              | CArr _ => VUndefined
              end
  | _ => VUndefined
  end.

Definition truthy (v : value) : bool :=
  match v with
  | VUndefined | VNull => false
  | VBool b => b
  | VNum n => negb (Z.eqb n 0)
  | VStr s => negb (String.eqb s "")
  | VFun _ | VRef _ => true
  end.

(** [_.isObject] *)
Definition isObject (v : value) : bool :=
  match v with VFun _ | VRef _ => true | _ => false end.

(** [_.isArray(v)] together with [v.length] *)
Definition array_length (h : heap) (v : value) : option nat :=
  match v with
  | VRef l => match get_cell h l with
              | CArr vs => Some (List.length vs)
              | CObj _ => None
              end
  | _ => None
  end.

Definition string_of_nat (n : nat) : string :=
  NilEmpty.string_of_uint (Nat.to_uint n).

(** ** Global configuration *)

Record config : Type := mkConfig {
  removeFields : list string;
  debug : bool;
  depth : Z;
  maxArrayLength : Z
}.

(** [_.includes(_config.removeFields, name)] *)
Definition includes (names : list string) (name : string) : bool :=
  existsb (String.eqb name) names.

(** ** Errors and results *)

Inductive exn : Type :=
| Thrown (v : value)      (* a value thrown by user code or by Joi *)
| SyntaxError             (* JSON.parse(undefined) *)
| TypeError               (* JSON.stringify: circular structure *)
| OutOfFuel.              (* artefact of the fuel; shown unreachable *)

Inductive result (A : Type) : Type :=
| Ok (a : A)
| Raise (e : exn).
Arguments Ok {A} a.
Arguments Raise {A} e.

(** ** The serializer *)

Inductive json : Type :=
| JNull
| JBool (b : bool)
| JNum (n : Z)
| JStr (s : string)
| JArr (items : list json)
| JObj (members : list (string * json)).

(** What the replacer hands back: a value of the caller, or a fresh
    object literal. *)
Inductive replaced : Type :=
| Kept (v : value)
| Literal (fields : list (string * value)).

Section Serializer.

Variable cfg : config.
Variable h : heap.

(** The replacer passed to [JSON.stringify], with the array [seen] threaded. *)
Definition replacer (seen : list value) (name : string) (v : value)
  : list value * replaced :=
  if indexOf_found seen v then (seen, Kept (VStr "[Circular]"))
  else
    let seen' := if isObject v then (seen ++ [v])%list else seen in
    if includes (removeFields cfg) name then (seen', Kept (VStr "<removed>"))
    else if String.eqb name "req" && truthy v && truthy (get h v "connection") then
      (seen', Literal [ ("method", get h v "method");
                        ("url", get h v "url");
                        ("headers", get h v "headers");
                        ("remoteAddress", get h (get h v "connection") "remoteAddress");
                        ("remotePort", get h (get h v "connection") "remotePort") ])
    else if String.eqb name "res" && truthy v && truthy (get h v "statusCode") then
      (seen', Literal [ ("statusCode", get h v "statusCode");
                        ("header", get h v "_header") ])
    else
      match array_length h v with
      | Some n =>
          if (Z.of_nat n >? maxArrayLength cfg)%Z
          then (seen', Kept (VStr ("Array(" ++ string_of_nat n ++ ")")))
          else (seen', Kept v)
      | None => (seen', Kept v)
      end.

Definition prop_serializer :=
  list value -> string -> value -> result (list value * option json).

(** [SerializeJSONObject]: the members in enumeration order, a member
    whose value serializes to [undefined] being left out. *)
Fixpoint SerializeJSONObject (prop : prop_serializer) (seen : list value)
         (fs : list (string * value))
  : result (list value * list (string * json)) :=
  match fs with
  | [] => Ok (seen, [])
  | (k, v) :: rest =>
      match prop seen k v with
      | Raise e => Raise e
      | Ok (seen1, r) =>
          match SerializeJSONObject prop seen1 rest with
          | Raise e => Raise e
          | Ok (seen2, ms) =>
              Ok (seen2, match r with Some j => (k, j) :: ms | None => ms end)
          end
      end
  end.

(** [SerializeJSONArray]: the elements by index, [undefined] giving [null]. *)
Fixpoint SerializeJSONArray (prop : prop_serializer) (seen : list value)
         (index : nat) (vs : list value)
  : result (list value * list json) :=
  match vs with
  | [] => Ok (seen, [])
  | v :: rest =>
      match prop seen (string_of_nat index) v with
      | Raise e => Raise e
      | Ok (seen1, r) =>
          match SerializeJSONArray prop seen1 (S index) rest with
          | Raise e => Raise e
          | Ok (seen2, js) =>
              Ok (seen2, match r with Some j => j | None => JNull end :: js)
          end
      end
  end.

(** [SerializeJSONProperty] of ECMAScript, with the replacer above.
    [stack] is the engine's own list of objects being serialized; meeting
    one of them again is the engine's circular-structure [TypeError]. *)
Fixpoint SerializeJSONProperty (fuel : nat) (stack : list loc)
         (seen : list value) (key : string) (v : value)
  : result (list value * option json) :=
  match fuel with
  | O => Raise OutOfFuel
  | S fuel' =>
      let (seen1, r) := replacer seen key v in
      match r with
      | Literal fs =>
          (* a fresh object: it is on no stack and nothing refers to it *)
          match SerializeJSONObject (SerializeJSONProperty fuel' stack) seen1 fs with
          | Raise e => Raise e
          | Ok (seen2, ms) => Ok (seen2, Some (JObj ms))
          end
      | Kept VUndefined => Ok (seen1, None)
      | Kept VNull => Ok (seen1, Some JNull)
      | Kept (VBool b) => Ok (seen1, Some (JBool b))
      | Kept (VNum n) => Ok (seen1, Some (JNum n))
      | Kept (VStr s) => Ok (seen1, Some (JStr s))
      | Kept (VFun _) => Ok (seen1, None)
      | Kept (VRef l) =>
          if existsb (Nat.eqb l) stack then Raise TypeError
          else
            match get_cell h l with
            | CObj fs =>
                match SerializeJSONObject
                        (SerializeJSONProperty fuel' (l :: stack)) seen1 fs with
                | Raise e => Raise e
                | Ok (seen2, ms) => Ok (seen2, Some (JObj ms))
                end
            | CArr vs =>
                match SerializeJSONArray
                        (SerializeJSONProperty fuel' (l :: stack)) seen1 0 vs with
                | Raise e => Raise e
                | Ok (seen2, js) => Ok (seen2, Some (JArr js))
                end
            end
      end
  end.

(** [JSON.stringify(obj, replacer)] with [const seen = []]. *)
Definition JSON_stringify (obj : value) : result (list value * option json) :=
  SerializeJSONProperty (S (List.length h)) [] [] "" obj.

(** [JSON.parse]: [undefined] is not JSON text. *)
Definition JSON_parse (text : option json) : result json :=
  match text with
  | Some j => Ok j
  | None => Raise SyntaxError
  end.

(** [_sanitizeObject]; [None] is [undefined]. *)
Definition _sanitizeObject (obj : value) : result (option json) :=
  match obj with
  | VUndefined => Ok None
  | _ =>
      match JSON_stringify obj with
      | Raise e => Raise e
      | Ok (_, text) =>
          match JSON_parse text with
          | Raise e => Raise e
          | Ok j => Ok (Some j)
          end
      end
  end.

(** [util.inspect(x, { depth })] on sanitized data. *)
Variable inspect : option json -> Z -> string.

Definition _serializeObject (obj : value) : result string :=
  match _sanitizeObject obj with
  | Raise e => Raise e
  | Ok x => Ok (inspect x (depth cfg))
  end.

End Serializer.

(** ** The argument mapper *)

Definition fields := list (string * value).

(** [ret[k] = v] on the own properties of [ret]. *)
Fixpoint set_prop (k : string) (v : value) (ret : fields) : fields :=
  match ret with
  | [] => [(k, v)]
  | (k', v') :: rest =>
      if String.eqb k k' then (k, v) :: rest else (k', v') :: set_prop k v rest
  end.

(** [params[i]] used as a property key: past the end of [params] the
    read gives [undefined], whose key is the string ["undefined"]. *)
Definition key_at (params : list string) (i : nat) : string :=
  match nth_error params i with
  | Some name => name
  | None => "undefined"
  end.

(** [_.each(arr, (arg, i) => { ret[params[i]] = arg; })] from index [i]. *)
Fixpoint each_arg (params : list string) (i : nat) (arr : list value)
         (ret : fields) : fields :=
  match arr with
  | [] => ret
  | arg :: rest => each_arg params (S i) rest (set_prop (key_at params i) arg ret)
  end.

(** [_combineObject(params, arr)]: the properties of the object built. *)
Definition _combineObject (params : list string) (arr : list value) : fields :=
  each_arg params 0 arr [].

(** Allocation of an object literal. *)
Definition new_object (fs : fields) (h : heap) : heap * value :=
  ((h ++ [CObj fs])%list, VRef (List.length h)).

(** ** Process state: configuration, counter, heap and logger calls *)

Inductive level : Type := LevelDebug | LevelError.

(** A bunyan logger, as [bunyan.createLogger({ name, level })] makes it. *)
Record logger : Type := mkLogger {
  logger_name : string;
  logger_level : level
}.

Inductive log_call : Type :=
| debug_call (lg : logger) (id : Z) (label payload : string)
    (* logger.debug({ id }, label, payload) *)
| error_call (lg : logger) (e : exn)
    (* logger.error(e) *)
| error_id_call (lg : logger) (id : Z) (label : string) (e : exn).
    (* logger.error({ id }, label, e) *)

(** [_seqId] is a JavaScript number; it is exact below 2^53 and is
    modelled by an integer. *)
Record state : Type := mkState {
  _config : config;
  _loggerFactory : string -> config -> logger;
  _seqId : Z;
  store : heap;
  calls : list log_call
}.

Definition default_loggerFactory (serviceName : string) (c : config) : logger :=
  mkLogger serviceName (if debug c then LevelDebug else LevelError).

Definition default_config : config :=
  mkConfig ["password"; "token"; "accessToken"] true 4 30.

Definition initial_state : state :=
  mkState default_config default_loggerFactory 0 [] [].

Definition emit (c : log_call) (st : state) : state :=
  mkState (_config st) (_loggerFactory st) (_seqId st) (store st)
          (calls st ++ [c])%list.

Definition set_store (h : heap) (st : state) : state :=
  mkState (_config st) (_loggerFactory st) (_seqId st) h (calls st).

(** The partial options object given to [configure]. *)
Record options : Type := mkOptions {
  opt_removeFields : option (list string);
  opt_debug : option bool;
  opt_depth : option Z;
  opt_maxArrayLength : option Z;
  opt_loggerFactory : option (string -> config -> logger)
}.

Definition extend {A : Type} (old : A) (given : option A) : A :=
  match given with
  | Some a => a
  | None => old
  end.

(** [configure(opts)]: [_.extend(_config, opts)]. *)
Definition configure (opts : options) (st : state) : state :=
  mkState
    (mkConfig (extend (removeFields (_config st)) (opt_removeFields opts))
              (extend (debug (_config st)) (opt_debug opts))
              (extend (depth (_config st)) (opt_depth opts))
              (extend (maxArrayLength (_config st)) (opt_maxArrayLength opts)))
    (extend (_loggerFactory st) (opt_loggerFactory opts))
    (_seqId st) (store st) (calls st).

(** [resetId()] *)
Definition resetId (st : state) : state :=
  mkState (_config st) (_loggerFactory st) 0 (store st) (calls st).

(** ** Operations and their wrappers *)

Inductive settled : Type :=
| Fulfilled (v : value)
| Rejected (e : exn)
| Pending.

(** How a call ends: with a plain value, with a promise (given by its
    eventual settlement), or by throwing. *)
Inductive completion : Type :=
| Return (v : value)
| ReturnPromise (p : settled)
| Throw (e : exn).

Definition operation := list value -> state -> state * completion.

Section Decorators.

Variable Schema : Type.

(** [util.inspect(x, { depth })] *)
Variable inspect : option json -> Z -> string.

(** [Joi.attempt(value, schema)]: the normalized object, or the
    [ValidationError] it throws. *)
Variable Joi_attempt : value -> option Schema -> heap -> heap * result value.

(** [result.then(onExit).catch(onError)] on a [result] whose [then] is a
    user-defined function and not a promise's. *)
Variable user_then : value -> state -> state * completion.

(** A function object with the properties the decorators read. *)
Record method : Type := mkMethod {
  fn : operation;
  methodName : string;
  params : list string;
  schema : option Schema;
  sync : bool;
  removeOutput : bool
}.

(** [_keepProps(method, newMethod)]: only [methodName], [params] and
    [removeOutput] are copied. *)
Definition _keepProps (m : method) (newMethod : operation) : method :=
  mkMethod newMethod (methodName m) (params m) None false (removeOutput m).

Definition serialize_in (st : state) (obj : value) : result string :=
  _serializeObject (_config st) (store st) inspect obj.

(** [logExit(output, id)] of [log]; the serializer may raise. *)
Definition logExit (lg : logger) (opts : method) (output : value) (id : Z)
           (st : state) : result state :=
  match (if removeOutput opts then Ok "<removed>" else serialize_in st output) with
  | Raise e => Raise e
  | Ok formattedOutput =>
      Ok (emit (debug_call lg id (" EXIT " ++ methodName opts ++ ":") formattedOutput) st)
  end.

Definition isFunction (v : value) : bool :=
  match v with VFun _ => true | _ => false end.

(** [logDecorator(...args)] of [log(method, logger, opts)]. *)
Definition logDecorator (m : operation) (lg : logger) (opts : method)
  : operation := fun args st0 =>
  let id := (_seqId st0 + 1)%Z in
  let st1 := mkState (_config st0) (_loggerFactory st0) id (store st0) (calls st0) in
  let (st2, formatted) :=
    match params opts with
    | [] => (st1, Ok "{ }")
    | _ :: _ =>
        let (h, obj) := new_object (_combineObject (params opts) args) (store st1) in
        (set_store h st1, serialize_in (set_store h st1) obj)
    end in
  match formatted with
  | Raise e => (st2, Throw e)
  | Ok formattedInput =>
      let st3 := emit (debug_call lg id ("ENTER " ++ methodName opts ++ ":")
                                  formattedInput) st2 in
      let onError e st :=
        emit (error_id_call lg id
                ("ERROR " ++ methodName opts ++ ": " ++ formattedInput ++ " " ++
                 String (Ascii.ascii_of_nat 10) "") e) st in
      match m args st3 with
      | (st4, Throw e) => (emit (error_call lg e) st4, Throw e)
      | (st4, ReturnPromise (Fulfilled asyncResult)) =>
          match logExit lg opts asyncResult id st4 with
          | Ok st5 => (st5, ReturnPromise (Fulfilled asyncResult))
          | Raise e => (onError e st4, ReturnPromise (Rejected e))
          end
      | (st4, ReturnPromise (Rejected e)) =>
          (onError e st4, ReturnPromise (Rejected e))
      | (st4, ReturnPromise Pending) => (st4, ReturnPromise Pending)
      | (st4, Return r) =>
          if truthy r && isFunction (get (store st4) r "then")
          then user_then r st4
          else
            match logExit lg opts r id st4 with
            | Ok st5 => (st5, Return r)
            | Raise e => (st4, Throw e)
            end
      end
  end.

Definition log (m : method) (lg : logger) (opts : method) : method :=
  _keepProps m (logDecorator (fn m) lg opts).

(** [validateDecorator(...args)] of [validate(method)]. *)
Definition validateDecorator (m : method) : operation := fun args st0 =>
  let (h1, value) := new_object (_combineObject (params m) args) (store st0) in
  match Joi_attempt value (schema m) h1 with
  | (h2, Raise e) =>
      if sync m then (set_store h2 st0, Throw e)
      else (set_store h2 st0, ReturnPromise (Rejected e))
  | (h2, Ok normalized) =>
      let newArgs := map (fun param => get h2 normalized param) (params m) in
      fn m newArgs (set_store h2 st0)
  end.

Definition validate (m : method) : method :=
  _keepProps m (validateDecorator m).

(** A function as the service declares it, before [decorate] sets
    [methodName] and resolves [params]. *)
Record declared : Type := mkDeclared {
  d_fn : operation;
  d_params : option (list string);
  d_schema : option Schema;
  d_sync : bool;
  d_removeOutput : bool
}.

(** [get-parameter-names] *)
Variable getParams : declared -> list string.

Definition prepare (name : string) (d : declared) : method :=
  mkMethod (d_fn d) name
           (match d_params d with Some p => p | None => getParams d end)
           (d_schema d) (d_sync d) (d_removeOutput d).

(** [decorate(service, serviceName)]: the service after the call.  Each key
    is taken to hold a function object of its own, so that the properties
    [decorate] sets on the function of one key are not overwritten when it
    reaches another key, and nothing changes them after [decorate]. *)
Definition decorate (service : list (string * declared)) (serviceName : string)
           (st : state) : list (string * method) :=
  let lg := _loggerFactory st serviceName (_config st) in
  map (fun entry =>
         let m := prepare (fst entry) (snd entry) in
         (fst entry, log (validate m) lg m))
      service.

End Decorators.

Arguments mkMethod {Schema}.
Arguments fn {Schema}.
Arguments methodName {Schema}.
Arguments params {Schema}.
Arguments schema {Schema}.
Arguments sync {Schema}.
Arguments removeOutput {Schema}.
Arguments mkDeclared {Schema}.
Arguments logDecorator {Schema}.
Arguments logExit {Schema}.
Arguments validateDecorator {Schema}.
Arguments validate {Schema}.
Arguments log {Schema}.
Arguments decorate {Schema}.

(** * Predicates used in the statements *)

(** [extends a b]: [b] is [a] with further pushes. *)
Definition extends (a b : list value) : Prop := exists ext, b = (a ++ ext)%list.

(** The number of heap cells whose reference is not in [seen]: the
    measure that bounds the depth of a pass. *)
Definition unseen (h : heap) (seen : list value) : nat :=
  List.length (filter (fun l => negb (indexOf_found seen (VRef l)))
                      (seq 0 (List.length h))).

(** [seen] after [if (_.isObject(value)) seen.push(value)]. *)
Definition pushed (seen : list value) (v : value) : list value :=
  if isObject v then (seen ++ [v])%list else seen.

Section ReplacerCases.

Variable cfg : config.
Variable h : heap.

(** The five ways out of the replacer. *)
Inductive replacer_case (seen : list value) (name : string) (v : value)
  : list value * replaced -> Prop :=
| rc_circular :
    In v seen ->
    replacer_case seen name v (seen, Kept (VStr "[Circular]"))
| rc_removed :
    ~ In v seen -> includes (removeFields cfg) name = true ->
    replacer_case seen name v (pushed seen v, Kept (VStr "<removed>"))
| rc_literal fs l :
    ~ In v seen -> includes (removeFields cfg) name = false ->
    v = VRef l -> l < List.length h ->
    replacer_case seen name v (pushed seen v, Literal fs)
| rc_array s :
    ~ In v seen -> includes (removeFields cfg) name = false ->
    replacer_case seen name v (pushed seen v, Kept (VStr s))
| rc_kept :
    ~ In v seen -> includes (removeFields cfg) name = false ->
    replacer_case seen name v (pushed seen v, Kept v).

End ReplacerCases.

(** A property serializer that only pushes onto [seen]. *)
Definition pushes_only (prop : prop_serializer) : Prop :=
  forall seen key v seen' r,
    prop seen key v = Ok (seen', r) -> extends seen seen'.

(** A property serializer that returns from every extension of [seen1]. *)
Definition succeeds_from (seen1 : list value) (prop : prop_serializer) : Prop :=
  forall seen key v,
    extends seen1 seen -> exists seen' r, prop seen key v = Ok (seen', r).










(** A wrapped function that does not touch [_seqId] itself. *)
Definition leaves_counter (m : operation) : Prop :=
  forall args st, _seqId (fst (m args st)) = _seqId st.

(** Invocations one after the other. *)
Fixpoint invoke_all (invocations : list (operation * list value)) (st : state)
  : state :=
  match invocations with
  | [] => st
  | (op, args) :: rest => invoke_all rest (fst (op args st))
  end.

(** ** A rendering for the examples *)

Definition string_of_Z (n : Z) : string :=
  match n with
  | Z0 => "0"
  | Zpos p => string_of_nat (Pos.to_nat p)
  | Zneg p => "-" ++ string_of_nat (Pos.to_nat p)
  end.

(** [util.inspect] for sanitized values that fit on one line: members
    and elements separated by commas, strings in single quotes, and
    [[Object]] or [[Array]] below the depth asked for.  Keys are printed
    as they are and characters inside strings are not escaped. *)
Fixpoint inspect_json (depth : Z) (level : nat) (j : json) : string :=
  match j with
  | JNull => "null"
  | JBool b => if b then "true" else "false"
  | JNum n => string_of_Z n
  | JStr s => "'" ++ s ++ "'"
  | JArr items =>
      match items with
      | [] => "[]"
      | _ :: _ =>
          if (Z.of_nat level >? depth)%Z then "[Array]"
          else "[ " ++ String.concat ", " (map (inspect_json depth (S level)) items)
                    ++ " ]"
      end
  | JObj ms =>
      match ms with
      | [] => "{}"
      | _ :: _ =>
          if (Z.of_nat level >? depth)%Z then "[Object]"
          else "{ " ++ String.concat ", "
                         (map (fun m : string * json => let (k, v) := m in
                                        k ++ ": " ++ inspect_json depth (S level) v)
                              ms)
                    ++ " }"
      end
  end.

Definition inspect_line (x : option json) (depth : Z) : string :=
  match x with
  | None => "undefined"
  | Some j => inspect_json depth 0 j
  end.

(** ** Collaborators, heaps and services of the examples *)

Definition inspect_blank : option json -> Z -> string := fun _ _ => "".

(** A validator that accepts every object as it is. *)
Definition Joi_accepts : value -> option unit -> heap -> heap * result value :=
  fun v _ h => (h, Ok v).

(** A validator that rejects every object. *)
Definition Joi_rejects (e : exn) : value -> option unit -> heap -> heap * result value :=
  fun _ _ h => (h, Raise e).

Definition user_then_none : value -> state -> state * completion :=
  fun v st => (st, Return v).

Definition getParams_none : declared unit -> list string := fun _ => [].

Fixpoint lookup_method {Schema : Type} (name : string)
         (service : list (string * method Schema)) : option (method Schema) :=
  match service with
  | [] => None
  | (k, m) :: rest => if String.eqb name k then Some m else lookup_method name rest
  end.

(** [service[name](...args)] *)
Definition service_call {Schema : Type} (service : list (string * method Schema))
           (name : string) (args : list value) (st : state)
  : option (state * completion) :=
  match lookup_method name service with
  | Some m => Some (fn m args st)
  | None => None
  end.

(** [obj = { a: 1 }; obj.sub = obj] *)
Definition demo_heap : heap :=
  [ CObj [("a", VNum 1); ("sub", VRef 0)] ].

(** [o = { x: 1 }; { a: o, b: o }] *)
Definition dag_heap : heap :=
  [ CObj [("a", VRef 1); ("b", VRef 1)]; CObj [("x", VNum 1)] ].


Definition res_heap : heap :=
  [ CObj [("statusCode", VNum 500); ("_header", VStr "123"); ("dummy", VNum 123)] ].

Definition deep_heap : heap :=
  [ CObj [("a", VRef 1)]; CObj [("b", VRef 2)]; CObj [("c", VRef 3)];
    CObj [("d", VRef 4)]; CObj [("e", VNum 1)] ].

Definition big_array_heap : heap := [ CArr (repeat VUndefined 100) ].

Definition add_method (is_sync : bool) : method unit :=
  mkMethod (fun _ st => (st, Return VNull)) "add" ["a"; "b"] None is_sync false.

Definition must_be_a_number : exn := Thrown (VStr "b must be a number").

(** A service whose operation returns a function. *)
Definition handler_service : list (string * declared unit) :=
  [ ("makeHandler",
     mkDeclared (fun _ st => (st, Return (VFun 0))) (Some []) None true false) ].

(** A service whose operation throws. *)
Definition failing_service (e : exn) : list (string * declared unit) :=
  [ ("fail", mkDeclared (fun _ st => (st, Throw e)) (Some []) None true false) ].




(** The operation [foo(req, res, obj, array)] of the repository's tests. *)
Definition foo_method : method unit :=
  mkMethod (fun _ st => (st, Return (VBool true))) "foo"
           ["req"; "res"; "obj"; "array"] None false false.

Definition BarService_logger : logger := mkLogger "BarService" LevelDebug.

(** The records written by one call of the logged [foo] in a heap [h]. *)
Definition foo_records (h : heap) (args : list value) : list log_call :=
  calls (fst (logDecorator inspect_line user_then_none (fn foo_method)
                           BarService_logger foo_method args
                           (set_store h initial_state))).

(** The service and the options of the repository's test of [configure]. *)
Definition CalcService : list (string * declared unit) :=
  [ ("add", mkDeclared (fun _ st => (st, Return (VNum 3))) (Some ["a"; "b"])
                       None true false) ].

Definition custom_config : options :=
  mkOptions (Some ["a"; "b"]) (Some false) (Some 1%Z) (Some 10%Z) None.

(** The request of the repository's test, held by the member [req]. *)
Definition req_heap : heap :=
  [ CObj [("req", VRef 1)];
    CObj [("method", VStr "GET"); ("url", VStr "/users"); ("headers", VRef 2);
          ("connection", VRef 3); ("dummy", VNum 123)];
    CObj [("h1", VStr "1"); ("h2", VStr "2")];
    CObj [("remoteAddress", VStr "::1"); ("remotePort", VNum 3000);
          ("dummy", VNum 123)] ].

(** The operation [hashPassword(password)] of the repository's tests. *)
Definition hashPassword_method : method unit :=
  mkMethod (fun _ st => (st, Return (VStr "ba817ef716"))) "hashPassword"
           ["password"] None false true.

(** [add(a, b)] as a service, declared synchronous or not. *)
Definition add_service (is_sync : bool) : list (string * declared unit) :=
  [ ("add", mkDeclared (fun _ st => (st, Return VNull)) (Some ["a"; "b"]) None
                       is_sync false) ].

(** [{ foo: 'bar' }] *)
Definition foo_bar_heap : heap := [ CObj [("foo", VStr "bar")] ].

(** ** Further predicates and versions *)

(** [subseq a b]: [a] is [b] with some elements left out, in order. *)
Inductive subseq {A : Type} : list A -> list A -> Prop :=
| subseq_nil : subseq [] []
| subseq_skip x a b : subseq a b -> subseq a (x :: b)
| subseq_keep x a b : subseq a b -> subseq (x :: a) (x :: b).

(** What the array [seen] holds: objects, each once. *)
Definition seen_ok (seen : list value) : Prop :=
  NoDup seen /\ Forall (fun v => isObject v = true) seen.

(** [_sanitizeObject] of [dist/decorator.js]: the same pass, without the
    test [obj === undefined]. *)
Definition _sanitizeObject_dist (cfg : config) (h : heap) (obj : value)
  : result (option json) :=
  match JSON_stringify cfg h obj with
  | Raise e => Raise e
  | Ok (_, text) =>
      match JSON_parse text with
      | Raise e => Raise e
      | Ok j => Ok (Some j)
      end
  end.

(** [{ a: 1, list: [1, 2, 3] }] and a long array. *)
Definition array_heap : heap :=
  [ CArr [VNum 1; VUndefined; VFun 7]; CArr (repeat VNull 31) ].

(** The first [n] of [args], [undefined] standing for a missing one. *)
Definition positional (n : nat) (args : list value) : list value :=
  map (fun i => nth i args VUndefined) (seq 0 n).

(** The state in which [logDecorator] calls the wrapped function: the
    state the wrapper leaves when that function does nothing and returns a
    promise that never settles. *)
Definition entered {Schema : Type} (inspect : option json -> Z -> string)
           (lg : logger) (opts : method Schema) (args : list value) (st : state)
  : state :=
  fst (logDecorator inspect (fun v s => (s, Return v))
                    (fun _ s => (s, ReturnPromise Pending)) lg opts args st).

(** [result && _.isFunction(result.then)] for a plain result. *)
Definition thenable (st : state) (c : completion) : bool :=
  match c with
  | Return r => truthy r && isFunction (get (store st) r "then")
  | _ => false
  end.

(** A record written through [lg] that carries [id] if it carries an id. *)
Definition record_of (lg : logger) (id : Z) (c : log_call) : Prop :=
  match c with
  | debug_call lg' id' _ _ => lg' = lg /\ id' = id
  | error_call lg' _ => lg' = lg
  | error_id_call lg' id' _ _ => lg' = lg /\ id' = id
  end.

(** [_.extend({}, a, b)] on options: the keys of [b] win. *)
Definition override (a b : options) : options :=
  mkOptions
    (match opt_removeFields b with Some x => Some x | None => opt_removeFields a end)
    (match opt_debug b with Some x => Some x | None => opt_debug a end)
    (match opt_depth b with Some x => Some x | None => opt_depth a end)
    (match opt_maxArrayLength b with
     | Some x => Some x
     | None => opt_maxArrayLength a
     end)
    (match opt_loggerFactory b with
     | Some x => Some x
     | None => opt_loggerFactory a
     end).


(** A validator that accepts every object and returns a copy of it. *)
Definition Joi_copies : value -> option unit -> heap -> heap * result value :=
  fun v _ h =>
    match v with
    | VRef l => ((h ++ [get_cell h l])%list, Ok (VRef (List.length h)))
    | _ => (h, Ok v)
    end.


(** [formattedInput] of [logDecorator]:
    [params.length ? _serializeObject(_combineObject(params, args)) : '{ }'],
    under the configuration [cfg] and on the heap [h]. *)
Definition formattedInput {Schema : Type} (cfg : config) (h : heap)
           (inspect : option json -> Z -> string)
           (opts : method Schema) (args : list value) : result string :=
  match params opts with
  | [] => Ok "{ }"
  | _ :: _ =>
      _serializeObject cfg (h ++ [CObj (_combineObject (params opts) args)])%list
                       inspect (VRef (List.length h))
  end.

(** [formattedOutput] of [logExit]:
    [removeOutput ? '<removed>' : _serializeObject(output)]. *)
Definition formattedOutput {Schema : Type} (cfg : config) (h : heap)
           (inspect : option json -> Z -> string)
           (opts : method Schema) (output : value) : result string :=
  if removeOutput opts then Ok "<removed>"
  else _serializeObject cfg h inspect output.

(** * Properties *)

(** ** Membership in [seen] *)

Lemma strict_eq_true (a b : value) : strict_eq a b = true <-> a = b.
Proof.
  unfold strict_eq. destruct (value_eq_dec a b); split; congruence.
Qed.

Lemma indexOf_found_In (seen : list value) (v : value) :
  indexOf_found seen v = true <-> In v seen.
Proof.
  unfold indexOf_found. rewrite existsb_exists. split.
  - intros [x [Hin Heq]]. apply strict_eq_true in Heq. now subst.
  - intros Hin. exists v. split; [assumption | now apply strict_eq_true].
Qed.

Lemma indexOf_found_false (seen : list value) (v : value) :
  indexOf_found seen v = false <-> ~ In v seen.
Proof.
  rewrite <- indexOf_found_In. destruct (indexOf_found seen v); split; congruence.
Qed.

Lemma extends_refl a : extends a a.
Proof. exists []. now rewrite app_nil_r. Qed.

Lemma extends_trans a b c : extends a b -> extends b c -> extends a c.
Proof.
  intros [x ->] [y ->]. exists (x ++ y)%list. now rewrite app_assoc.
Qed.

Lemma extends_In a b v : extends a b -> In v a -> In v b.
Proof. intros [x ->] Hin. apply in_or_app. now left. Qed.

Lemma extends_push a v : extends a (a ++ [v])%list.
Proof. now exists [v]. Qed.

Create HintDb seen.
#[local] Hint Resolve extends_refl extends_push : seen.

(** ** The number of heap objects not yet in [seen] *)

Lemma filter_length_mono {A} (f g : A -> bool) (l : list A) :
  (forall x, In x l -> f x = true -> g x = true) ->
  List.length (filter f l) <= List.length (filter g l).
Proof.
  induction l as [|a l IH]; intros Hfg; simpl; [lia|].
  assert (IH' : List.length (filter f l) <= List.length (filter g l)).
  { apply IH. intros x Hx. apply Hfg. now right. }
  destruct (f a) eqn:Hfa.
  - rewrite (Hfg a (or_introl eq_refl) Hfa). simpl. lia.
  - destruct (g a); simpl; lia.
Qed.

Lemma filter_length_lt {A} (f g : A -> bool) (l : list A) (a : A) :
  (forall x, In x l -> f x = true -> g x = true) ->
  In a l -> f a = false -> g a = true ->
  List.length (filter f l) < List.length (filter g l).
Proof.
  induction l as [|b l IH]; intros Hfg Hin Hfa Hga; simpl; [contradiction|].
  assert (Hle : List.length (filter f l) <= List.length (filter g l)).
  { apply filter_length_mono. intros x Hx. apply Hfg. now right. }
  destruct Hin as [-> | Hin].
  - rewrite Hfa, Hga. simpl. lia.
  - assert (Hlt : List.length (filter f l) < List.length (filter g l)).
    { apply IH; auto. intros x Hx. apply Hfg. now right. }
    destruct (f b) eqn:Hfb.
    + rewrite (Hfg b (or_introl eq_refl) Hfb). simpl. lia.
    + destruct (g b); simpl; lia.
Qed.

Lemma unseen_extends h a b : extends a b -> unseen h b <= unseen h a.
Proof.
  intros Hext. unfold unseen. apply filter_length_mono.
  intros x _ Hx. apply negb_true_iff in Hx. apply negb_true_iff.
  apply indexOf_found_false. apply indexOf_found_false in Hx.
  intros Hin. apply Hx. eapply extends_In; eauto.
Qed.

Lemma unseen_push h seen l :
  l < List.length h -> ~ In (VRef l) seen ->
  unseen h (seen ++ [VRef l]) < unseen h seen.
Proof.
  intros Hl Hnew. unfold unseen. apply filter_length_lt with (a := l).
  - intros x _ Hx. apply negb_true_iff in Hx. apply negb_true_iff.
    apply indexOf_found_false. apply indexOf_found_false in Hx.
    intros Hin. apply Hx. apply in_or_app. now left.
  - apply in_seq. lia.
  - apply negb_false_iff. apply indexOf_found_In. apply in_or_app. right. now left.
  - apply negb_true_iff. now apply indexOf_found_false.
Qed.

(** ** The replacer, case by case *)

Lemma get_truthy_ref (h : heap) (v : value) (k : string) :
  truthy (get h v k) = true -> exists l, v = VRef l /\ l < List.length h.
Proof.
  destruct v as [| | b | n | s | f | l]; simpl; try discriminate.
  intros Ht. exists l. split; [reflexivity|].
  destruct (Nat.lt_ge_cases l (List.length h)) as [Hlt | Hge]; [assumption|].
  unfold get_cell in Ht. rewrite nth_overflow in Ht by assumption.
  simpl in Ht. discriminate.
Qed.

Section SerializerFacts.

Variable cfg : config.
Variable h : heap.

Lemma replacer_cases seen name v :
  replacer_case cfg h seen name v (replacer cfg h seen name v).
Proof.
  unfold replacer.
  destruct (indexOf_found seen v) eqn:Hseen.
  { apply rc_circular. now apply indexOf_found_In. }
  apply indexOf_found_false in Hseen.
  fold (pushed seen v).
  destruct (includes (removeFields cfg) name) eqn:Hrem.
  { now apply rc_removed. }
  destruct (String.eqb name "req" && truthy v && truthy (get h v "connection"))
    eqn:Hreq.
  { apply andb_true_iff in Hreq as [_ Hc].
    destruct (get_truthy_ref _ _ _ Hc) as [l [-> Hl]].
    now apply rc_literal with (l := l). }
  destruct (String.eqb name "res" && truthy v && truthy (get h v "statusCode"))
    eqn:Hres.
  { apply andb_true_iff in Hres as [_ Hc].
    destruct (get_truthy_ref _ _ _ Hc) as [l [-> Hl]].
    now apply rc_literal with (l := l). }
  destruct (array_length h v) as [n|].
  - destruct (Z.of_nat n >? maxArrayLength cfg)%Z.
    + now apply rc_array.
    + now apply rc_kept.
  - now apply rc_kept.
Qed.

Lemma extends_pushed seen v : extends seen (pushed seen v).
Proof. unfold pushed. destruct (isObject v); auto with seen. Qed.

Lemma replacer_extends seen name v :
  extends seen (fst (replacer cfg h seen name v)).
Proof.
  destruct (replacer_cases seen name v); simpl;
    auto using extends_pushed with seen.
Qed.

(** ** The pass only pushes onto [seen] *)

Lemma SerializeJSONObject_extends prop :
  pushes_only prop ->
  forall fs seen seen' ms,
    SerializeJSONObject prop seen fs = Ok (seen', ms) -> extends seen seen'.
Proof.
  intros Hprop. induction fs as [|[k v] rest IH]; simpl; intros seen seen' ms H.
  - inversion H; subst. auto with seen.
  - destruct (prop seen k v) as [[seen1 r]|] eqn:Hp; [|discriminate].
    destruct (SerializeJSONObject prop seen1 rest) as [[seen2 ms2]|] eqn:Hr;
      [|discriminate].
    inversion H; subst.
    eapply extends_trans; [eapply Hprop; eassumption | eapply IH; eassumption].
Qed.

Lemma SerializeJSONArray_extends prop :
  pushes_only prop ->
  forall vs index seen seen' js,
    SerializeJSONArray prop seen index vs = Ok (seen', js) -> extends seen seen'.
Proof.
  intros Hprop. induction vs as [|v rest IH]; simpl; intros index seen seen' js H.
  - inversion H; subst. auto with seen.
  - destruct (prop seen (string_of_nat index) v) as [[seen1 r]|] eqn:Hp;
      [|discriminate].
    destruct (SerializeJSONArray prop seen1 (S index) rest) as [[seen2 js2]|] eqn:Hr;
      [|discriminate].
    inversion H; subst.
    eapply extends_trans; [eapply Hprop; eassumption | eapply IH; eassumption].
Qed.

Lemma SerializeJSONProperty_extends fuel :
  forall stack, pushes_only (SerializeJSONProperty cfg h fuel stack).
Proof.
  induction fuel as [|fuel IH]; intros stack seen key v seen' r H; simpl in H.
  - discriminate.
  - pose proof (replacer_extends seen key v) as Hext.
    destruct (replacer cfg h seen key v) as [seen1 rep]. simpl in Hext.
    destruct rep as [w | fs].
    + destruct w as [| | b | n | s | f | l];
        try (inversion H; subst; assumption).
      destruct (existsb (Nat.eqb l) stack); [discriminate|].
      destruct (get_cell h l) as [fs | vs].
      * destruct (SerializeJSONObject _ seen1 fs) as [[seen2 ms]|] eqn:Hs;
          [|discriminate].
        inversion H; subst.
        eapply extends_trans; [eassumption|].
        eapply SerializeJSONObject_extends; [apply IH | eassumption].
      * destruct (SerializeJSONArray _ seen1 0 vs) as [[seen2 js]|] eqn:Hs;
          [|discriminate].
        inversion H; subst.
        eapply extends_trans; [eassumption|].
        eapply SerializeJSONArray_extends; [apply IH | eassumption].
    + destruct (SerializeJSONObject _ seen1 fs) as [[seen2 ms]|] eqn:Hs;
        [|discriminate].
      inversion H; subst.
      eapply extends_trans; [eassumption|].
      eapply SerializeJSONObject_extends; [apply IH | eassumption].
Qed.

End SerializerFacts.

(** ** The pass terminates and never meets the engine's circularity check *)

Section Totality.

Variable cfg : config.
Variable h : heap.

Lemma SerializeJSONObject_total prop seen1 :
  pushes_only prop -> succeeds_from seen1 prop ->
  forall fs seen, extends seen1 seen ->
    exists seen' ms, SerializeJSONObject prop seen fs = Ok (seen', ms).
Proof.
  intros Hpush Hok. induction fs as [|[k v] rest IH]; simpl; intros seen Hext.
  - eauto.
  - destruct (Hok seen k v Hext) as [seen2 [r Hp]]. rewrite Hp.
    assert (Hext2 : extends seen1 seen2).
    { eapply extends_trans; [eassumption | eapply Hpush; eassumption]. }
    destruct (IH seen2 Hext2) as [seen3 [ms Hr]]. rewrite Hr. eauto.
Qed.

Lemma SerializeJSONArray_total prop seen1 :
  pushes_only prop -> succeeds_from seen1 prop ->
  forall vs index seen, extends seen1 seen ->
    exists seen' js, SerializeJSONArray prop seen index vs = Ok (seen', js).
Proof.
  intros Hpush Hok. induction vs as [|v rest IH]; simpl; intros index seen Hext.
  - eauto.
  - destruct (Hok seen (string_of_nat index) v Hext) as [seen2 [r Hp]]. rewrite Hp.
    assert (Hext2 : extends seen1 seen2).
    { eapply extends_trans; [eassumption | eapply Hpush; eassumption]. }
    destruct (IH (S index) seen2 Hext2) as [seen3 [js Hr]]. rewrite Hr. eauto.
Qed.

Lemma not_on_stack stack seen l :
  (forall l', In l' stack -> In (VRef l') seen) ->
  ~ In (VRef l) seen -> existsb (Nat.eqb l) stack = false.
Proof.
  intros Hstack Hnew. destruct (existsb (Nat.eqb l) stack) eqn:E; [|reflexivity].
  apply existsb_exists in E as [l' [Hin Heq]]. apply Nat.eqb_eq in Heq. subst l'.
  elim Hnew. now apply Hstack.
Qed.

Lemma SerializeJSONProperty_total fuel :
  forall stack seen key v,
    unseen h seen < fuel ->
    (forall l, In l stack -> In (VRef l) seen) ->
    exists seen' r, SerializeJSONProperty cfg h fuel stack seen key v = Ok (seen', r).
Proof.
  induction fuel as [|fuel IH]; intros stack seen key v Hfuel Hstack; [lia|].
  assert (Hsub : forall l stack',
             l < List.length h -> ~ In (VRef l) seen ->
             (forall l', In l' stack' -> In (VRef l') (seen ++ [VRef l])) ->
             succeeds_from (seen ++ [VRef l])
                           (SerializeJSONProperty cfg h fuel stack')).
  { intros l stack' Hl Hnew Hstack' seen2 key2 v2 Hext. apply IH.
    - pose proof (unseen_push h seen l Hl Hnew).
      pose proof (unseen_extends h _ _ Hext). lia.
    - intros l' Hin. eapply extends_In; [eassumption | now apply Hstack']. }
  simpl.
  pose proof (replacer_cases cfg h seen key v) as Hcase.
  destruct (replacer cfg h seen key v) as [seen1 rep].
  inversion Hcase as [Hin | Hnew Hrem | fs l Hnew Hrem Hv Hl | s Hnew Hrem
                     | Hnew Hrem]; subst; try (eexists; eexists; reflexivity).
  - (* a fresh literal *)
    change (pushed seen (VRef l)) with (seen ++ [VRef l])%list.
    destruct (SerializeJSONObject_total _ _
                (SerializeJSONProperty_extends cfg h fuel stack)
                (Hsub l stack Hl Hnew
                      (fun l' Hin => in_or_app _ _ _ (or_introl (Hstack l' Hin))))
                fs _ (extends_refl _)) as [seen2 [ms Hs]].
    rewrite Hs. eauto.
  - (* the value itself *)
    destruct v as [| | b | n | s | f | l]; try (eexists; eexists; reflexivity).
    change (pushed seen (VRef l)) with (seen ++ [VRef l])%list.
    rewrite (not_on_stack stack seen l Hstack Hnew).
    destruct (Nat.lt_ge_cases l (List.length h)) as [Hl | Hge].
    + assert (Hstack' : forall l', In l' (l :: stack) ->
                                   In (VRef l') (seen ++ [VRef l])).
      { intros l' [-> | Hin]; apply in_or_app; [right; now left | left; auto]. }
      destruct (get_cell h l) as [fs | vs].
      * destruct (SerializeJSONObject_total _ _
                    (SerializeJSONProperty_extends cfg h fuel (l :: stack))
                    (Hsub l (l :: stack) Hl Hnew Hstack')
                    fs _ (extends_refl _)) as [seen2 [ms Hs]].
        rewrite Hs. eauto.
      * destruct (SerializeJSONArray_total _ _
                    (SerializeJSONProperty_extends cfg h fuel (l :: stack))
                    (Hsub l (l :: stack) Hl Hnew Hstack')
                    vs 0 _ (extends_refl _)) as [seen2 [js Hs]].
        rewrite Hs. eauto.
    + unfold get_cell. rewrite nth_overflow by assumption. simpl. eauto.
Qed.

Lemma unseen_le_heap seen : unseen h seen <= List.length h.
Proof.
  unfold unseen. etransitivity; [apply filter_length_le|].
  now rewrite length_seq.
Qed.

Lemma JSON_stringify_total (obj : value) :
  exists seen text, JSON_stringify cfg h obj = Ok (seen, text).
Proof.
  unfold JSON_stringify. apply SerializeJSONProperty_total.
  - pose proof (unseen_le_heap []). lia.
  - intros l [].
Qed.

End Totality.

(** ** What the pass does at a visited reference, and what it remembers *)

Section Visits.

Variable cfg : config.
Variable h : heap.








(** The pass at the top level, for an object that the replacer keeps. *)
Lemma JSON_stringify_object l fs :
  get_cell h l = CObj fs ->
  includes (removeFields cfg) "" = false ->
  JSON_stringify cfg h (VRef l)
  = match SerializeJSONObject (SerializeJSONProperty cfg h (List.length h) [l])
                              [VRef l] fs with
    | Raise e => Raise e
    | Ok (seen2, ms) => Ok (seen2, Some (JObj ms))
    end.
Proof.
  intros Hcell Htop. unfold JSON_stringify. simpl.
  unfold replacer. simpl. rewrite Htop. simpl.
  unfold array_length. rewrite Hcell. simpl. rewrite Hcell. reflexivity.
Qed.

End Visits.

(** ** When the serializer raises *)

Section Raising.

Variable cfg : config.
Variable h : heap.

(** Only [undefined] and functions serialize to [undefined]. *)
Lemma SerializeJSONProperty_undefined fuel stack seen key v seen' :
  SerializeJSONProperty cfg h fuel stack seen key v = Ok (seen', None) ->
  includes (removeFields cfg) key = false /\
  (v = VUndefined \/ exists f, v = VFun f).
Proof.
  destruct fuel as [|fuel]; simpl; [discriminate|].
  pose proof (replacer_cases cfg h seen key v) as Hcase.
  destruct (replacer cfg h seen key v) as [seen1 rep].
  inversion Hcase as [Hin | Hnew Hrem | fs l Hnew Hrem Hv Hl | s Hnew Hrem
                     | Hnew Hrem]; subst; try discriminate.
  - destruct (SerializeJSONObject _ _ fs) as [[seen2 ms]|]; discriminate.
  - intros H. split; [assumption|].
    destruct v as [| | b | n | s | f | l]; try discriminate; eauto.
    destruct (existsb (Nat.eqb l) stack); [discriminate|].
    destruct (get_cell h l) as [fs | vs].
    + destruct (SerializeJSONObject _ _ fs) as [[seen2 ms]|]; discriminate.
    + destruct (SerializeJSONArray _ _ 0 vs) as [[seen2 js]|]; discriminate.
Qed.

Lemma _sanitizeObject_function f :
  includes (removeFields cfg) "" = false ->
  _sanitizeObject cfg h (VFun f) = Raise SyntaxError.
Proof.
  intros Htop. unfold _sanitizeObject, JSON_stringify. simpl.
  unfold replacer. simpl. rewrite Htop. reflexivity.
Qed.

(** The serializer raises at functions kept by the replacer and nowhere
    else. *)
Lemma _sanitizeObject_raises v e :
  _sanitizeObject cfg h v = Raise e <->
  e = SyntaxError /\ includes (removeFields cfg) "" = false /\
  exists f, v = VFun f.
Proof.
  split.
  - intros H.
    destruct (JSON_stringify_total cfg h v) as [seen [text Hs]].
    assert (Hv : v = VUndefined \/
                 match JSON_parse text with
                 | Raise e' => Raise e'
                 | Ok j => Ok (Some j)
                 end = Raise e).
    { unfold _sanitizeObject in H. rewrite Hs in H.
      destruct v; auto. }
    destruct Hv as [-> | Hp]; [discriminate H|].
    destruct text as [j|]; [discriminate|].
    simpl in Hp. inversion Hp; subst e.
    apply SerializeJSONProperty_undefined in Hs as [Htop [-> | [f ->]]].
    + discriminate H.
    + eauto.
  - intros [-> [Htop [f ->]]]. now apply _sanitizeObject_function.
Qed.

Lemma _sanitizeObject_ref l :
  exists j, _sanitizeObject cfg h (VRef l) = Ok (Some j).
Proof.
  destruct (_sanitizeObject cfg h (VRef l)) as [[j|]|e] eqn:H.
  - eauto.
  - unfold _sanitizeObject in H.
    destruct (JSON_stringify cfg h (VRef l)) as [[seen [j|]]|]; discriminate.
  - apply _sanitizeObject_raises in H as [_ [_ [f Hf]]]. discriminate.
Qed.

End Raising.

(** ** Self-reference *)

Example sanitize_demo :
  _sanitizeObject default_config demo_heap (VRef 0)
  = Ok (Some (JObj [("a", JNum 1); ("sub", JStr "[Circular]")])).
Proof. reflexivity. Qed.



(** ** Shared references *)

Example sanitize_dag :
  _sanitizeObject default_config dag_heap (VRef 0)
  = Ok (Some (JObj [("a", JObj [("x", JNum 1)]); ("b", JStr "[Circular]")])).
Proof. reflexivity. Qed.



(** ** Redaction *)

Section Redaction.

Variable cfg : config.
Variable h : heap.

Local Abbreviation names := (removeFields cfg).






End Redaction.




(** ** The argument mapper *)

Lemma assoc_set_prop_same k v ret : assoc k (set_prop k v ret) = v.
Proof.
  induction ret as [|[k' v'] rest IH]; simpl.
  - now rewrite String.eqb_refl.
  - destruct (String.eqb k k') eqn:E; simpl.
    + now rewrite String.eqb_refl.
    + now rewrite E.
Qed.

Lemma assoc_set_prop_other k k' v ret :
  k <> k' -> assoc k (set_prop k' v ret) = assoc k ret.
Proof.
  intros Hne. induction ret as [|[k0 v0] rest IH]; simpl.
  - destruct (String.eqb k k') eqn:E; [apply String.eqb_eq in E; contradiction|].
    reflexivity.
  - destruct (String.eqb k' k0) eqn:E0; simpl.
    + apply String.eqb_eq in E0. subst k0.
      destruct (String.eqb k k') eqn:E; [apply String.eqb_eq in E; contradiction|].
      reflexivity.
    + destruct (String.eqb k k0); [reflexivity | assumption].
Qed.

Lemma each_arg_untouched params k :
  forall arr i ret,
    (forall j, i <= j -> j < i + List.length arr -> key_at params j <> k) ->
    assoc k (each_arg params i arr ret) = assoc k ret.
Proof.
  induction arr as [|arg rest IH]; simpl; intros i ret Hk; [reflexivity|].
  rewrite IH.
  - apply assoc_set_prop_other. intros Heq. apply (Hk i); [lia | lia | now symmetry].
  - intros j Hj1 Hj2. apply Hk; lia.
Qed.

(** By position: when no argument lies beyond the declared parameters and
    the names are distinct, the [i]-th name holds the [i]-th argument. *)
Lemma _combineObject_by_position params arr i name arg :
  NoDup params -> List.length arr <= List.length params ->
  nth_error params i = Some name -> nth_error arr i = Some arg ->
  assoc name (_combineObject params arr) = arg.
Proof.
  intros Hnd Hlen Hname Harg. unfold _combineObject.
  assert (Hgen : forall arr0 i0 ret,
             i0 + List.length arr0 <= List.length params ->
             i0 <= i -> nth_error arr0 (i - i0) = Some arg ->
             assoc name (each_arg params i0 arr0 ret) = arg).
  { induction arr0 as [|a rest IH]; simpl; intros i0 ret Hl Hi Hnth.
    - destruct (i - i0); discriminate.
    - destruct (Nat.eq_dec i0 i) as [-> | Hne].
      + rewrite Nat.sub_diag in Hnth. simpl in Hnth. inversion Hnth; subst a.
        rewrite each_arg_untouched.
        * unfold key_at. rewrite Hname. apply assoc_set_prop_same.
        * intros j Hj1 Hj2 Heq. unfold key_at in Heq.
          destruct (nth_error params j) as [nj|] eqn:Ej.
          -- subst nj.
             assert (j = i).
             { eapply (proj1 (NoDup_nth_error params) Hnd); [|congruence].
               apply nth_error_Some. congruence. }
             lia.
          -- apply nth_error_None in Ej. lia.
      + apply IH; [lia | lia |].
        replace (i - i0) with (S (i - S i0)) in Hnth by lia. exact Hnth. }
  apply Hgen; [simpl; lia | lia | now rewrite Nat.sub_0_r].
Qed.

(** C5 at the failing inputs: an argument beyond the declared parameters
    is stored under the key ["undefined"], so the mapping is not empty for
    an empty parameter list and extra arguments are not dropped. *)
Theorem C5_extra_argument_kept (x y : value) :
  _combineObject [] [x] = [("undefined", x)]
  /\ _combineObject ["a"] [x; y] = [("a", x); ("undefined", y)]
  /\ _combineObject ["a"; "b"] [x; y] = [("a", x); ("b", y)].
Proof. repeat split. Qed.

(** ** The wrappers *)

Section WrapperFacts.

Variable Schema : Type.
Variable inspect : option json -> Z -> string.
Variable Joi_attempt : value -> option Schema -> heap -> heap * result value.
Variable user_then : value -> state -> state * completion.

Lemma serialize_in_ref st l :
  exists text, serialize_in inspect st (VRef l) = Ok text.
Proof.
  unfold serialize_in, _serializeObject.
  destruct (_sanitizeObject_ref (_config st) (store st) l) as [j ->]. eauto.
Qed.

Lemma serialize_in_raises st v e :
  serialize_in inspect st v = Raise e ->
  e = SyntaxError /\ exists f, v = VFun f.
Proof.
  unfold serialize_in, _serializeObject. intros H.
  destruct (_sanitizeObject (_config st) (store st) v) as [x|e'] eqn:Hs;
    [discriminate|].
  inversion H; subst e'.
  apply _sanitizeObject_raises in Hs as [-> [_ Hf]]. auto.
Qed.

(** The ENTER record is always written: the mapped arguments are a
    fresh object, which the serializer accepts. *)
Lemma logDecorator_enters (m : operation) lg (opts : method Schema) args st :
  exists st3 formattedInput,
    calls st3 = (calls st ++ [debug_call lg (_seqId st + 1)
                                ("ENTER " ++ methodName opts ++ ":")
                                formattedInput])%list
    /\ _seqId st3 = (_seqId st + 1)%Z
    /\ _config st3 = _config st
    /\ logDecorator inspect user_then m lg opts args st
       = match m args st3 with
         | (st4, Throw e) => (emit (error_call lg e) st4, Throw e)
         | (st4, ReturnPromise (Fulfilled asyncResult)) =>
             match logExit inspect lg opts asyncResult (_seqId st + 1) st4 with
             | Ok st5 => (st5, ReturnPromise (Fulfilled asyncResult))
             | Raise e =>
                 (emit (error_id_call lg (_seqId st + 1)
                          ("ERROR " ++ methodName opts ++ ": " ++ formattedInput
                           ++ " " ++ String (Ascii.ascii_of_nat 10) "") e) st4,
                  ReturnPromise (Rejected e))
             end
         | (st4, ReturnPromise (Rejected e)) =>
             (emit (error_id_call lg (_seqId st + 1)
                      ("ERROR " ++ methodName opts ++ ": " ++ formattedInput
                       ++ " " ++ String (Ascii.ascii_of_nat 10) "") e) st4,
              ReturnPromise (Rejected e))
         | (st4, ReturnPromise Pending) => (st4, ReturnPromise Pending)
         | (st4, Return r) =>
             if truthy r && isFunction (get (store st4) r "then")
             then user_then r st4
             else match logExit inspect lg opts r (_seqId st + 1) st4 with
                  | Ok st5 => (st5, Return r)
                  | Raise e => (st4, Throw e)
                  end
         end.
Proof.
  unfold logDecorator.
  destruct (params opts) as [|p ps] eqn:Hp.
  - eexists. eexists. split; [|split; [|split]]; [| | |reflexivity];
      reflexivity.
  - unfold new_object.
    match goal with
    | |- context [serialize_in inspect ?s (VRef ?l)] =>
        destruct (serialize_in_ref s l) as [text Ht]; rewrite Ht
    end.
    eexists. eexists. split; [|split; [|split]]; [| | |reflexivity];
      reflexivity.
Qed.

(** The wrapped function throws: the same error is thrown again. *)
Lemma logDecorator_rethrows (m : operation) lg (opts : method Schema) args st :
  exists st3,
    forall st4 e, m args st3 = (st4, Throw e) ->
      logDecorator inspect user_then m lg opts args st
      = (emit (error_call lg e) st4, Throw e).
Proof.
  destruct (logDecorator_enters m lg opts args st) as [st3 [fi [_ [_ [_ H]]]]].
  exists st3. intros st4 e Hm. rewrite H, Hm. reflexivity.
Qed.

(** The promise of the wrapped function is rejected: the record carries
    the id of the invocation and the promise returned is rejected with
    the same error. *)
Lemma logDecorator_rejects (m : operation) lg (opts : method Schema) args st :
  exists st3 label,
    forall st4 e, m args st3 = (st4, ReturnPromise (Rejected e)) ->
      logDecorator inspect user_then m lg opts args st
      = (emit (error_id_call lg (_seqId st + 1) label e) st4,
         ReturnPromise (Rejected e)).
Proof.
  destruct (logDecorator_enters m lg opts args st) as [st3 [fi [_ [_ [_ H]]]]].
  exists st3. eexists. intros st4 e Hm. rewrite H, Hm. reflexivity.
Qed.

(** A plain result that is not a function is returned as it is, after
    the EXIT record with the id of the ENTER record. *)
Lemma logDecorator_returns (m : operation) lg (opts : method Schema) args st :
  exists st3,
    forall st4 r,
      m args st3 = (st4, Return r) ->
      truthy r && isFunction (get (store st4) r "then") = false ->
      removeOutput opts = true \/ isFunction r = false ->
      exists payload,
        logDecorator inspect user_then m lg opts args st
        = (emit (debug_call lg (_seqId st + 1)
                            (" EXIT " ++ methodName opts ++ ":") payload) st4,
           Return r).
Proof.
  destruct (logDecorator_enters m lg opts args st) as [st3 [fi [_ [_ [_ H]]]]].
  exists st3. intros st4 r Hm Hthen Hser. rewrite H, Hm, Hthen.
  unfold logExit.
  destruct (removeOutput opts) eqn:Hro.
  - eexists. reflexivity.
  - destruct Hser as [Habs | Hfun]; [discriminate|].
    destruct (serialize_in inspect st4 r) as [text|e] eqn:Hs.
    + eexists. reflexivity.
    + apply serialize_in_raises in Hs as [_ [f ->]]. discriminate.
Qed.

(** A promise fulfilled with a value that is not a function comes back
    fulfilled with the same value, after the EXIT record with the id of
    the ENTER record. *)
Lemma logDecorator_fulfills (m : operation) lg (opts : method Schema) args st :
  exists st3,
    forall st4 r,
      m args st3 = (st4, ReturnPromise (Fulfilled r)) ->
      removeOutput opts = true \/ isFunction r = false ->
      exists payload,
        logDecorator inspect user_then m lg opts args st
        = (emit (debug_call lg (_seqId st + 1)
                            (" EXIT " ++ methodName opts ++ ":") payload) st4,
           ReturnPromise (Fulfilled r)).
Proof.
  destruct (logDecorator_enters m lg opts args st) as [st3 [fi [_ [_ [_ H]]]]].
  exists st3. intros st4 r Hm Hser. rewrite H, Hm.
  unfold logExit.
  destruct (removeOutput opts) eqn:Hro.
  - eexists. reflexivity.
  - destruct Hser as [Habs | Hfun]; [discriminate|].
    destruct (serialize_in inspect st4 r) as [text|e] eqn:Hs.
    + eexists. reflexivity.
    + apply serialize_in_raises in Hs as [_ [f ->]]. discriminate.
Qed.

(** The counter after an invocation whose wrapped function leaves it
    alone. *)
Lemma logDecorator_counter (m : operation) lg (opts : method Schema) args st :
  (forall a s, _seqId (fst (m a s)) = _seqId s) ->
  (forall v s, _seqId (fst (user_then v s)) = _seqId s) ->
  _seqId (fst (logDecorator inspect user_then m lg opts args st))
  = (_seqId st + 1)%Z.
Proof.
  intros Hm Hu.
  destruct (logDecorator_enters m lg opts args st) as [st3 [fi [_ [Hid [_ H]]]]].
  rewrite H. specialize (Hm args st3). rewrite Hid in Hm.
  destruct (m args st3) as [st4 [r | [v | e |] | e]]; simpl in Hm.
  - destruct (truthy r && isFunction (get (store st4) r "then")).
    + rewrite Hu. exact Hm.
    + unfold logExit.
      destruct (if removeOutput opts then Ok "<removed>"
                else serialize_in inspect st4 r); simpl; exact Hm.
  - unfold logExit.
    destruct (if removeOutput opts then Ok "<removed>"
              else serialize_in inspect st4 v); simpl; exact Hm.
  - simpl. exact Hm.
  - simpl. exact Hm.
  - simpl. exact Hm.
Qed.

(** After [resetId] the counter of the next invocation is 1, when the
    wrapped function does not touch the counter itself. *)
Lemma logDecorator_after_reset (m : operation) lg (opts : method Schema) args st :
  (forall a s, _seqId (fst (m a s)) = _seqId s) ->
  (forall v s, _seqId (fst (user_then v s)) = _seqId s) ->
  _seqId (fst (logDecorator inspect user_then m lg opts args (resetId st))) = 1%Z.
Proof.
  intros Hm Hu. rewrite logDecorator_counter by assumption. reflexivity.
Qed.

End WrapperFacts.

(** ** Validation failures *)

(** C2: when [Joi.attempt] throws, the validation wrapper throws the same
    error if the method is declared [sync], and otherwise returns a promise
    rejected with that error, without throwing. *)
Theorem C2_validation_failure_channel
        (Schema : Type)
        (Joi_attempt : value -> option Schema -> heap -> heap * result value)
        (m : method Schema) (args : list value) (st : state)
        (h2 : heap) (e : exn)
        (Hfail : Joi_attempt (VRef (List.length (store st))) (schema m)
                             (store st ++ [CObj (_combineObject (params m) args)])%list
                 = (h2, Raise e)) :
  (sync m = true ->
   validateDecorator Joi_attempt m args st = (set_store h2 st, Throw e))
  /\ (sync m = false ->
      validateDecorator Joi_attempt m args st
      = (set_store h2 st, ReturnPromise (Rejected e))).
Proof.
  unfold validateDecorator, new_object. rewrite Hfail.
  split; intros ->; reflexivity.
Qed.

Lemma C2_witness :
  validateDecorator (Joi_rejects must_be_a_number) (add_method true)
                    [VStr "1"; VStr "x"] initial_state
  = (set_store [CObj [("a", VStr "1"); ("b", VStr "x")]] initial_state,
     Throw must_be_a_number)
  /\ validateDecorator (Joi_rejects must_be_a_number) (add_method false)
                       [VStr "1"; VStr "x"] initial_state
     = (set_store [CObj [("a", VStr "1"); ("b", VStr "x")]] initial_state,
        ReturnPromise (Rejected must_be_a_number)).
Proof.
  split.
  - apply (proj1 (C2_validation_failure_channel
                    unit (Joi_rejects must_be_a_number) (add_method true)
                    [VStr "1"; VStr "x"] initial_state
                    [CObj [("a", VStr "1"); ("b", VStr "x")]] must_be_a_number
                    eq_refl)).
    reflexivity.
  - apply (proj2 (C2_validation_failure_channel
                    unit (Joi_rejects must_be_a_number) (add_method false)
                    [VStr "1"; VStr "x"] initial_state
                    [CObj [("a", VStr "1"); ("b", VStr "x")]] must_be_a_number
                    eq_refl)).
    reflexivity.
Defined.

(** ** Failures of the wrapped function *)

(** C3 at the failing input: when the wrapped function throws, the error
    is thrown again unchanged, but the record written is [logger.error(e)],
    which carries no correlation id. *)
Theorem C3_sync_throw_record_without_id
        (Schema : Type) (inspect : option json -> Z -> string)
        (user_then : value -> state -> state * completion)
        (lg : logger) (f : operation) (name : string) (sch : option Schema)
        (is_sync remove : bool) (e : exn) (args : list value) (st : state) :
  logDecorator inspect user_then (fun _ s => (s, Throw e)) lg
               (mkMethod f name [] sch is_sync remove) args st
  = (mkState (_config st) (_loggerFactory st) (_seqId st + 1) (store st)
             ((calls st ++ [debug_call lg (_seqId st + 1)
                                       ("ENTER " ++ name ++ ":") "{ }"])
                ++ [error_call lg e])%list,
     Throw e).
Proof. reflexivity. Qed.

(** ** Results the serializer does not accept *)

(** C1 at the failing input: the serializer raises [SyntaxError] at a
    function, and a promise fulfilled with a function comes back from the
    logging wrapper rejected with that [SyntaxError], no EXIT record being
    written. *)
Theorem C1_function_value_raises
        (Schema : Type) (inspect : option json -> Z -> string)
        (user_then : value -> state -> state * completion)
        (h : heap) (f : loc) (lg : logger) (g : operation) (name : string)
        (sch : option Schema) (is_sync : bool) (args : list value)
        (factory : string -> config -> logger) (n : Z) (cs : list log_call) :
  _serializeObject default_config h inspect (VFun f) = Raise SyntaxError
  /\ logDecorator inspect user_then
                  (fun _ s => (s, ReturnPromise (Fulfilled (VFun f)))) lg
                  (mkMethod g name [] sch is_sync false) args
                  (mkState default_config factory n h cs)
     = (mkState default_config factory (n + 1) h
                ((cs ++ [debug_call lg (n + 1) ("ENTER " ++ name ++ ":") "{ }"])
                   ++ [error_id_call lg (n + 1)
                         ("ERROR " ++ name ++ ": " ++ "{ }" ++ " "
                          ++ String (Ascii.ascii_of_nat 10) "")
                         SyntaxError])%list,
        ReturnPromise (Rejected SyntaxError)).
Proof. split; reflexivity. Qed.

(** C4 at the failing input: a synchronous operation whose schema is
    satisfied returns a function; the decorated operation throws
    [SyntaxError] in its place and writes no EXIT record. *)
Theorem C4_function_result_not_returned
        (inspect : option json -> Z -> string)
        (user_then : value -> state -> state * completion)
        (getParams : declared unit -> list string) :
  service_call
    (decorate inspect Joi_accepts user_then getParams handler_service
              "HandlerService" initial_state)
    "makeHandler" [] initial_state
  = Some (mkState default_config default_loggerFactory 1 [CObj []]
                  [debug_call (mkLogger "HandlerService" LevelDebug) 1
                              "ENTER makeHandler:" "{ }"],
          Throw SyntaxError).
Proof. reflexivity. Qed.

(** C6 at the failing input: two invocations in a row, after [resetId], of
    an operation that throws.  The ids 1 and 2 are allocated and carried by
    the ENTER records, but the error record of each invocation carries no
    id. *)
Theorem C6_error_record_without_id
        (inspect : option json -> Z -> string)
        (user_then : value -> state -> state * completion)
        (getParams : declared unit -> list string) (e : exn) :
  let service := decorate inspect Joi_accepts user_then getParams
                          (failing_service e) "S" initial_state in
  let lg := mkLogger "S" LevelDebug in
  exists st1 st2,
    service_call service "fail" [] (resetId initial_state) = Some (st1, Throw e)
    /\ service_call service "fail" [] st1 = Some (st2, Throw e)
    /\ _seqId st1 = 1%Z /\ _seqId st2 = 2%Z
    /\ calls st2 = [ debug_call lg 1 "ENTER fail:" "{ }"; error_call lg e;
                     debug_call lg 2 "ENTER fail:" "{ }"; error_call lg e ].
Proof.
  simpl. eexists. eexists.
  split; [reflexivity|]. split; [reflexivity|]. repeat split.
Qed.

(** ** Reconfiguration *)

(** The serializer reads [removeFields], [maxArrayLength] and [depth] and
    nothing else of the configuration. *)



Section SerializerReads.

Variables cfg cfg' : config.
Variable h : heap.
Hypothesis same_removeFields : removeFields cfg = removeFields cfg'.
Hypothesis same_maxArrayLength : maxArrayLength cfg = maxArrayLength cfg'.




End SerializerReads.




(** ** The serializer cases of the repository's tests *)

Example test_remove_properties :
  logDecorator inspect_line user_then_none (fn hashPassword_method)
               (mkLogger "SecurityService" LevelDebug) hashPassword_method
               [VStr "secret"] initial_state
  = (mkState default_config default_loggerFactory 1
             [CObj [("password", VStr "secret")]]
             [ debug_call (mkLogger "SecurityService" LevelDebug) 1
                          "ENTER hashPassword:" "{ password: '<removed>' }";
               debug_call (mkLogger "SecurityService" LevelDebug) 1
                          " EXIT hashPassword:" "<removed>" ],
     Return (VStr "ba817ef716")).
Proof. reflexivity. Qed.

Example test_map_req :
  _sanitizeObject default_config req_heap (VRef 0)
  = Ok (Some (JObj [("req",
                     JObj [("method", JStr "GET"); ("url", JStr "/users");
                           ("headers", JObj [("h1", JStr "1"); ("h2", JStr "2")]);
                           ("remoteAddress", JStr "::1");
                           ("remotePort", JNum 3000)])])).
Proof. reflexivity. Qed.

Example test_map_res :
  foo_records res_heap [VUndefined; VRef 0; VUndefined; VUndefined]
  = [ debug_call BarService_logger 1 "ENTER foo:"
                 "{ res: { statusCode: 500, header: '123' } }";
      debug_call BarService_logger 1 " EXIT foo:" "true" ].
Proof. reflexivity. Qed.

Example test_map_deep_obj :
  foo_records deep_heap [VUndefined; VUndefined; VRef 0; VUndefined]
  = [ debug_call BarService_logger 1 "ENTER foo:"
                 "{ obj: { a: { b: { c: { d: [Object] } } } } }";
      debug_call BarService_logger 1 " EXIT foo:" "true" ].
Proof. reflexivity. Qed.

Example test_map_circular_obj :
  foo_records demo_heap [VUndefined; VUndefined; VRef 0; VUndefined]
  = [ debug_call BarService_logger 1 "ENTER foo:"
                 "{ obj: { a: 1, sub: '[Circular]' } }";
      debug_call BarService_logger 1 " EXIT foo:" "true" ].
Proof. reflexivity. Qed.

Example test_map_big_array :
  foo_records big_array_heap [VUndefined; VUndefined; VUndefined; VRef 0]
  = [ debug_call BarService_logger 1 "ENTER foo:" "{ array: 'Array(100)' }";
      debug_call BarService_logger 1 " EXIT foo:" "true" ].
Proof. reflexivity. Qed.

(** ** Successive invocations *)

(** Invocations in a row, of wrapped functions that do not touch the
    counter themselves, advance [_seqId] by one each: the ids they allocate
    are consecutive. *)
Lemma invoke_all_counter
      (Schema : Type) (inspect : option json -> Z -> string)
      (user_then : value -> state -> state * completion)
      (invocations : list (operation * list value)) :
  (forall v s, _seqId (fst (user_then v s)) = _seqId s) ->
  Forall (fun c => exists m lg (opts : method Schema),
                     fst c = logDecorator inspect user_then m lg opts
                     /\ leaves_counter m) invocations ->
  forall st,
    _seqId (invoke_all invocations st)
    = (_seqId st + Z.of_nat (List.length invocations))%Z.
Proof.
  intros Hu Hall. induction Hall as [|[op args] rest Hop _ IH]; intros st.
  - simpl. lia.
  - destruct Hop as [m [lg [opts [Hop Hm]]]]. simpl in Hop. subst op.
    cbn [invoke_all]. rewrite IH.
    rewrite logDecorator_counter by assumption.
    cbn [List.length]. lia.
Qed.

(** A call made after [configure], by an operation decorated before it,
    is logged with the new [removeFields]. *)
Example reconfigured_call :
  option_map (fun r => (calls (fst r), snd r))
    (service_call
       (decorate inspect_line Joi_accepts user_then_none getParams_none
                 CalcService "CalcService" initial_state)
       "add" [VNum 1; VNum 2] (configure custom_config initial_state))
  = Some ([ debug_call (mkLogger "CalcService" LevelDebug) 1 "ENTER add:"
                       "{ a: '<removed>', b: '<removed>' }";
            debug_call (mkLogger "CalcService" LevelDebug) 1 " EXIT add:" "3" ],
          Return (VNum 3)).
Proof. reflexivity. Qed.

(** ** A validation failure seen through the decorated operation *)

Example decorated_sync_validation_failure :
  option_map (fun r => (calls (fst r), snd r))
    (service_call
       (decorate inspect_line (Joi_rejects must_be_a_number) user_then_none
                 getParams_none (add_service true) "CalcService" initial_state)
       "add" [VStr "1"; VRef 0] (set_store foo_bar_heap initial_state))
  = Some ([ debug_call (mkLogger "CalcService" LevelDebug) 1 "ENTER add:"
                       "{ a: '1', b: { foo: 'bar' } }";
            error_call (mkLogger "CalcService" LevelDebug) must_be_a_number ],
          Throw must_be_a_number).
Proof. reflexivity. Qed.

Example decorated_async_validation_failure :
  option_map (fun r => (calls (fst r), snd r))
    (service_call
       (decorate inspect_line (Joi_rejects must_be_a_number) user_then_none
                 getParams_none (add_service false) "CalcService" initial_state)
       "add" [VStr "1"; VRef 0] (set_store foo_bar_heap initial_state))
  = Some ([ debug_call (mkLogger "CalcService" LevelDebug) 1 "ENTER add:"
                       "{ a: '1', b: { foo: 'bar' } }";
            error_id_call (mkLogger "CalcService" LevelDebug) 1
                          ("ERROR add: { a: '1', b: { foo: 'bar' } } "
                           ++ String (Ascii.ascii_of_nat 10) "")
                          must_be_a_number ],
          ReturnPromise (Rejected must_be_a_number)).
Proof. reflexivity. Qed.

(** * Further properties of the serializer *)

(** ** Arrays *)





(** ** The array [seen] *)

Section SeenInvariant.

Variable cfg : config.
Variable h : heap.

Lemma replacer_seen_ok seen name v :
  seen_ok seen -> seen_ok (fst (replacer cfg h seen name v)).
Proof.
  intros [Hnd Hobj].
  assert (Hp : ~ In v seen -> seen_ok (pushed seen v)).
  { intros Hnew. unfold pushed. destruct (isObject v) eqn:Hv; [|now split].
    split.
    - apply NoDup_app; [assumption | repeat constructor; intros [] |].
      intros a Ha [<- | []]. contradiction.
    - apply Forall_app. split; [assumption | repeat constructor; assumption]. }
  destruct (replacer_cases cfg h seen name v); simpl; auto. now split.
Qed.

Lemma SerializeJSONObject_seen_ok prop :
  (forall seen key v seen' r,
      prop seen key v = Ok (seen', r) -> seen_ok seen -> seen_ok seen') ->
  forall fs seen seen' ms,
    SerializeJSONObject prop seen fs = Ok (seen', ms) ->
    seen_ok seen -> seen_ok seen'.
Proof.
  intros Hprop. induction fs as [|[k v] rest IH]; simpl; intros seen seen' ms H Hok.
  - inversion H; subst. assumption.
  - destruct (prop seen k v) as [[seen1 r]|] eqn:Hp; [|discriminate].
    destruct (SerializeJSONObject prop seen1 rest) as [[seen2 ms2]|] eqn:Hr;
      [|discriminate].
    inversion H; subst. eapply IH; [eassumption|]. eapply Hprop; eassumption.
Qed.

Lemma SerializeJSONArray_seen_ok prop :
  (forall seen key v seen' r,
      prop seen key v = Ok (seen', r) -> seen_ok seen -> seen_ok seen') ->
  forall vs index seen seen' js,
    SerializeJSONArray prop seen index vs = Ok (seen', js) ->
    seen_ok seen -> seen_ok seen'.
Proof.
  intros Hprop. induction vs as [|v rest IH]; simpl;
    intros index seen seen' js H Hok.
  - inversion H; subst. assumption.
  - destruct (prop seen (string_of_nat index) v) as [[seen1 r]|] eqn:Hp;
      [|discriminate].
    destruct (SerializeJSONArray prop seen1 (S index) rest) as [[seen2 js2]|] eqn:Hr;
      [|discriminate].
    inversion H; subst. eapply IH; [eassumption|]. eapply Hprop; eassumption.
Qed.

Lemma SerializeJSONProperty_seen_ok fuel :
  forall stack seen key v seen' r,
    SerializeJSONProperty cfg h fuel stack seen key v = Ok (seen', r) ->
    seen_ok seen -> seen_ok seen'.
Proof.
  induction fuel as [|fuel IH]; intros stack seen key v seen' r H Hok;
    simpl in H; [discriminate|].
  pose proof (replacer_seen_ok seen key v Hok) as Hok1.
  destruct (replacer cfg h seen key v) as [seen1 rep]. simpl in Hok1.
  destruct rep as [w | fs].
  - destruct w as [| | b | n | s | f | l];
      try (inversion H; subst; assumption).
    destruct (existsb (Nat.eqb l) stack); [discriminate|].
    destruct (get_cell h l) as [fs | vs].
    + destruct (SerializeJSONObject _ seen1 fs) as [[seen2 ms]|] eqn:Hs;
        [|discriminate].
      inversion H; subst.
      eapply SerializeJSONObject_seen_ok; [apply IH | eassumption | assumption].
    + destruct (SerializeJSONArray _ seen1 0 vs) as [[seen2 js]|] eqn:Hs;
        [|discriminate].
      inversion H; subst.
      eapply SerializeJSONArray_seen_ok; [apply IH | eassumption | assumption].
  - destruct (SerializeJSONObject _ seen1 fs) as [[seen2 ms]|] eqn:Hs;
      [|discriminate].
    inversion H; subst.
    eapply SerializeJSONObject_seen_ok; [apply IH | eassumption | assumption].
Qed.

End SeenInvariant.

(** At the end of a pass [seen] holds objects and functions only, each of
    them once: a primitive is never remembered and no object is remembered
    twice. *)
Theorem JSON_stringify_seen_once
        (cfg : config) (h : heap) (obj : value)
        (seen : list value) (text : option json)
        (Hdone : JSON_stringify cfg h obj = Ok (seen, text)) :
  NoDup seen /\ Forall (fun v => isObject v = true) seen.
Proof.
  eapply SerializeJSONProperty_seen_ok; [exact Hdone|].
  split; constructor.
Qed.

Lemma JSON_stringify_seen_once_witness :
  JSON_stringify default_config dag_heap (VRef 0)
  = Ok ([VRef 0; VRef 1],
        Some (JObj [("a", JObj [("x", JNum 1)]); ("b", JStr "[Circular]")]))
  /\ NoDup [VRef 0; VRef 1]
  /\ Forall (fun v => isObject v = true) [VRef 0; VRef 1].
Proof.
  assert (Hdone : JSON_stringify default_config dag_heap (VRef 0)
                  = Ok ([VRef 0; VRef 1],
                        Some (JObj [("a", JObj [("x", JNum 1)]);
                                    ("b", JStr "[Circular]")])))
    by reflexivity.
  split; [exact Hdone|].
  exact (JSON_stringify_seen_once default_config dag_heap (VRef 0) _ _ Hdone).
Defined.

(** ** Members *)

Lemma subseq_refl {A : Type} (l : list A) : subseq l l.
Proof. induction l; constructor; assumption. Qed.

Lemma SerializeJSONObject_keys prop :
  forall fs seen seen' ms,
    SerializeJSONObject prop seen fs = Ok (seen', ms) ->
    subseq (map fst ms) (map fst fs).
Proof.
  induction fs as [|[k v] rest IH]; simpl; intros seen seen' ms H.
  - inversion H; subst. constructor.
  - destruct (prop seen k v) as [[seen1 r]|]; [|discriminate].
    destruct (SerializeJSONObject prop seen1 rest) as [[seen2 ms2]|] eqn:Hr;
      [|discriminate].
    inversion H; subst. specialize (IH _ _ _ Hr).
    destruct r; simpl; constructor; assumption.
Qed.

(** The sanitized copy of an object has no member the object does not
    have, and keeps the members in the object's order: members are only
    left out (those holding [undefined] or a function). *)
Theorem _sanitizeObject_members
        (cfg : config) (h : heap) (l : loc) (fs : list (string * value))
        (j : json)
        (Hcell : get_cell h l = CObj fs)
        (Htop : includes (removeFields cfg) "" = false)
        (Hdone : _sanitizeObject cfg h (VRef l) = Ok (Some j)) :
  exists ms, j = JObj ms /\ subseq (map fst ms) (map fst fs).
Proof.
  unfold _sanitizeObject in Hdone.
  rewrite (JSON_stringify_object cfg h l fs Hcell Htop) in Hdone.
  destruct (SerializeJSONObject _ [VRef l] fs) as [[seen2 ms]|] eqn:Hs;
    [|discriminate].
  simpl in Hdone. inversion Hdone; subst. exists ms. split; [reflexivity|].
  eapply SerializeJSONObject_keys; eassumption.
Qed.

Lemma _sanitizeObject_members_witness :
  _sanitizeObject default_config res_heap (VRef 0)
  = Ok (Some (JObj [("statusCode", JNum 500); ("_header", JStr "123");
                    ("dummy", JNum 123)]))
  /\ exists ms,
      JObj [("statusCode", JNum 500); ("_header", JStr "123"); ("dummy", JNum 123)]
      = JObj ms
      /\ subseq (map fst ms) ["statusCode"; "_header"; "dummy"].
Proof.
  assert (Hdone : _sanitizeObject default_config res_heap (VRef 0)
                  = Ok (Some (JObj [("statusCode", JNum 500);
                                    ("_header", JStr "123");
                                    ("dummy", JNum 123)])))
    by reflexivity.
  split; [exact Hdone|].
  exact (_sanitizeObject_members default_config res_heap 0 _ _
                                 eq_refl eq_refl Hdone).
Defined.

Lemma SerializeJSONProperty_literal cfg h fuel stack seen key v seen1 fs :
  replacer cfg h seen key v = (seen1, Literal fs) ->
  SerializeJSONProperty cfg h (S fuel) stack seen key v
  = match SerializeJSONObject (SerializeJSONProperty cfg h fuel stack) seen1 fs with
    | Raise e => Raise e
    | Ok (seen2, ms) => Ok (seen2, Some (JObj ms))
    end.
Proof. intros H. simpl. rewrite H. reflexivity. Qed.

Lemma replacer_req cfg h seen v :
  includes (removeFields cfg) "req" = false -> ~ In v seen ->
  truthy (get h v "connection") = true ->
  replacer cfg h seen "req" v
  = ((seen ++ [v])%list,
     Literal [ ("method", get h v "method");
               ("url", get h v "url");
               ("headers", get h v "headers");
               ("remoteAddress", get h (get h v "connection") "remoteAddress");
               ("remotePort", get h (get h v "connection") "remotePort") ]).
Proof.
  intros Hkey Hnew Hconn.
  destruct (get_truthy_ref _ _ _ Hconn) as [l [-> _]].
  unfold replacer.
  rewrite (proj2 (indexOf_found_false seen (VRef l)) Hnew), Hkey, Hconn.
  reflexivity.
Qed.

Lemma replacer_res cfg h seen v :
  includes (removeFields cfg) "res" = false -> ~ In v seen ->
  truthy (get h v "statusCode") = true ->
  replacer cfg h seen "res" v
  = ((seen ++ [v])%list,
     Literal [ ("statusCode", get h v "statusCode");
               ("header", get h v "_header") ]).
Proof.
  intros Hkey Hnew Hcode.
  destruct (get_truthy_ref _ _ _ Hcode) as [l [-> _]].
  unfold replacer.
  rewrite (proj2 (indexOf_found_false seen (VRef l)) Hnew), Hkey, Hcode.
  reflexivity.
Qed.

(** A member named [req] whose value has a truthy [connection] is
    replaced by an object with no members but [method], [url], [headers],
    [remoteAddress] and [remotePort], in this order: every other field of
    the request and of its connection is left out. *)
Theorem req_projection
        (cfg : config) (h : heap) (fuel : nat) (stack : list loc)
        (seen : list value) (v : value) (seen' : list value) (r : option json)
        (Hkey : includes (removeFields cfg) "req" = false)
        (Hnew : ~ In v seen)
        (Hconn : truthy (get h v "connection") = true)
        (Hdone : SerializeJSONProperty cfg h fuel stack seen "req" v
                 = Ok (seen', r)) :
  exists ms,
    r = Some (JObj ms)
    /\ subseq (map fst ms)
              ["method"; "url"; "headers"; "remoteAddress"; "remotePort"].
Proof.
  destruct fuel as [|fuel]; [discriminate|].
  rewrite (SerializeJSONProperty_literal _ _ _ _ _ _ _ _ _
             (replacer_req cfg h seen v Hkey Hnew Hconn)) in Hdone.
  destruct (SerializeJSONObject _ _ _) as [[seen2 ms]|] eqn:Hs; [|discriminate].
  inversion Hdone; subst. exists ms. split; [reflexivity|].
  apply SerializeJSONObject_keys in Hs. exact Hs.
Qed.

Lemma req_projection_witness :
  SerializeJSONProperty default_config req_heap 3 [0] [VRef 0] "req" (VRef 1)
  = Ok ([VRef 0; VRef 1; VRef 2],
        Some (JObj [("method", JStr "GET"); ("url", JStr "/users");
                    ("headers", JObj [("h1", JStr "1"); ("h2", JStr "2")]);
                    ("remoteAddress", JStr "::1"); ("remotePort", JNum 3000)]))
  /\ exists ms,
      Some (JObj [("method", JStr "GET"); ("url", JStr "/users");
                  ("headers", JObj [("h1", JStr "1"); ("h2", JStr "2")]);
                  ("remoteAddress", JStr "::1"); ("remotePort", JNum 3000)])
      = Some (JObj ms)
      /\ subseq (map fst ms)
                ["method"; "url"; "headers"; "remoteAddress"; "remotePort"].
Proof.
  assert (Hdone :
            SerializeJSONProperty default_config req_heap 3 [0] [VRef 0] "req"
                                  (VRef 1)
            = Ok ([VRef 0; VRef 1; VRef 2],
                  Some (JObj [("method", JStr "GET"); ("url", JStr "/users");
                              ("headers", JObj [("h1", JStr "1"); ("h2", JStr "2")]);
                              ("remoteAddress", JStr "::1");
                              ("remotePort", JNum 3000)])))
    by reflexivity.
  split; [exact Hdone|].
  refine (req_projection default_config req_heap 3 [0] [VRef 0] (VRef 1) _ _
                         _ _ _ Hdone).
  - reflexivity.
  - simpl. intros [H | []]. discriminate.
  - reflexivity.
Defined.

(** A member named [res] whose value has a truthy [statusCode] is
    replaced by an object with no members but [statusCode] and [header]. *)
Theorem res_projection
        (cfg : config) (h : heap) (fuel : nat) (stack : list loc)
        (seen : list value) (v : value) (seen' : list value) (r : option json)
        (Hkey : includes (removeFields cfg) "res" = false)
        (Hnew : ~ In v seen)
        (Hcode : truthy (get h v "statusCode") = true)
        (Hdone : SerializeJSONProperty cfg h fuel stack seen "res" v
                 = Ok (seen', r)) :
  exists ms,
    r = Some (JObj ms) /\ subseq (map fst ms) ["statusCode"; "header"].
Proof.
  destruct fuel as [|fuel]; [discriminate|].
  rewrite (SerializeJSONProperty_literal _ _ _ _ _ _ _ _ _
             (replacer_res cfg h seen v Hkey Hnew Hcode)) in Hdone.
  destruct (SerializeJSONObject _ _ _) as [[seen2 ms]|] eqn:Hs; [|discriminate].
  inversion Hdone; subst. exists ms. split; [reflexivity|].
  apply SerializeJSONObject_keys in Hs. exact Hs.
Qed.

Lemma res_projection_witness :
  SerializeJSONProperty default_config res_heap 2 [] [] "res" (VRef 0)
  = Ok ([VRef 0],
        Some (JObj [("statusCode", JNum 500); ("header", JStr "123")]))
  /\ exists ms,
      Some (JObj [("statusCode", JNum 500); ("header", JStr "123")])
      = Some (JObj ms)
      /\ subseq (map fst ms) ["statusCode"; "header"].
Proof.
  assert (Hdone :
            SerializeJSONProperty default_config res_heap 2 [] [] "res" (VRef 0)
            = Ok ([VRef 0],
                  Some (JObj [("statusCode", JNum 500); ("header", JStr "123")])))
    by reflexivity.
  split; [exact Hdone|].
  refine (res_projection default_config res_heap 2 [] [] (VRef 0) _ _
                         _ _ _ Hdone).
  - reflexivity.
  - simpl. tauto.
  - reflexivity.
Defined.

(** * Further properties of the argument mapper *)

Lemma each_arg_last_wins params name arg i :
  forall arr i0 ret,
    i0 <= i -> nth_error arr (i - i0) = Some arg ->
    key_at params i = name ->
    (forall j, i < j -> j < i0 + List.length arr -> key_at params j <> name) ->
    assoc name (each_arg params i0 arr ret) = arg.
Proof.
  induction arr as [|a rest IH]; simpl; intros i0 ret Hi Hnth Hkey Hlater.
  - destruct (i - i0); discriminate.
  - destruct (Nat.eq_dec i0 i) as [-> | Hne].
    + rewrite Nat.sub_diag in Hnth. simpl in Hnth. inversion Hnth; subst a.
      rewrite each_arg_untouched.
      * rewrite Hkey. apply assoc_set_prop_same.
      * intros j Hj1 Hj2. apply Hlater; lia.
    + apply IH; [lia | | assumption |].
      * replace (i - i0) with (S (i - S i0)) in Hnth by lia. exact Hnth.
      * intros j Hj1 Hj2. apply Hlater; lia.
Qed.

(** The name at position [i] holds the [i]-th argument unless a later
    argument is stored under the same key: among arguments with the same
    key, declared twice or lying beyond the parameters, the last wins. *)
Theorem _combineObject_last_wins
        (params : list string) (arr : list value) (i : nat) (arg : value)
        (Harg : nth_error arr i = Some arg)
        (Hlater : forall j, i < j -> j < List.length arr ->
                            key_at params j <> key_at params i) :
  assoc (key_at params i) (_combineObject params arr) = arg.
Proof.
  unfold _combineObject.
  apply each_arg_last_wins with (i := i);
    [lia | now rewrite Nat.sub_0_r | reflexivity | exact Hlater].
Qed.

Lemma _combineObject_last_wins_witness :
  assoc "a" (_combineObject ["a"; "a"] [VNum 1; VNum 2]) = VNum 2
  /\ assoc "undefined" (_combineObject ["a"] [VNum 1; VNum 2; VNum 3]) = VNum 3.
Proof.
  split.
  - apply (_combineObject_last_wins ["a"; "a"] [VNum 1; VNum 2] 1 (VNum 2)).
    + reflexivity.
    + simpl. intros j H1 H2. lia.
  - apply (_combineObject_last_wins ["a"] [VNum 1; VNum 2; VNum 3] 2 (VNum 3)).
    + reflexivity.
    + simpl. intros j H1 H2. lia.
Defined.

Lemma NoDup_key_at params i j name :
  NoDup params -> nth_error params i = Some name -> j < List.length params ->
  j <> i -> key_at params j <> name.
Proof.
  intros Hnd Hi Hj Hne Heq. unfold key_at in Heq.
  destruct (nth_error params j) as [nj|] eqn:Ej.
  - subst nj. apply Hne.
    eapply (proj1 (NoDup_nth_error params) Hnd); [assumption | congruence].
  - apply nth_error_None in Ej. lia.
Qed.

(** A declared parameter that gets no argument is not in the mapping:
    reading it gives [undefined]. *)
Theorem _combineObject_missing
        (params : list string) (arr : list value) (i : nat) (name : string)
        (Hnd : NoDup params)
        (Hname : nth_error params i = Some name)
        (Hshort : List.length arr <= i) :
  assoc name (_combineObject params arr) = VUndefined.
Proof.
  unfold _combineObject. rewrite each_arg_untouched; [reflexivity|].
  intros j _ Hj.
  assert (Hi : i < List.length params) by (apply nth_error_Some; congruence).
  apply NoDup_key_at with (i := i); auto; simpl in Hj; lia.
Qed.

Lemma _combineObject_missing_witness :
  assoc "b" (_combineObject ["a"; "b"] [VNum 1]) = VUndefined.
Proof.
  apply (_combineObject_missing ["a"; "b"] [VNum 1] 1 "b").
  - repeat constructor; simpl; intuition discriminate.
  - reflexivity.
  - simpl. lia.
Defined.

Lemma set_prop_keys k v ret k' :
  In k' (map fst (set_prop k v ret)) <-> k' = k \/ In k' (map fst ret).
Proof.
  induction ret as [|[k0 v0] rest IH]; simpl.
  - intuition.
  - destruct (String.eqb k k0) eqn:E; simpl.
    + apply String.eqb_eq in E. subst k0. intuition.
    + rewrite IH. intuition.
Qed.

Lemma set_prop_NoDup k v ret :
  NoDup (map fst ret) -> NoDup (map fst (set_prop k v ret)).
Proof.
  induction ret as [|[k0 v0] rest IH]; simpl; intros Hnd.
  - repeat constructor. intros [].
  - inversion Hnd as [|x xs Hnotin Hrest]; subst.
    destruct (String.eqb k k0) eqn:E; simpl.
    + apply String.eqb_eq in E. subst k0. now constructor.
    + constructor; [|auto].
      rewrite set_prop_keys. intros [-> | Hin]; [|contradiction].
      rewrite String.eqb_refl in E. discriminate.
Qed.

Lemma each_arg_keys params :
  forall arr i ret,
    NoDup (map fst ret) ->
    NoDup (map fst (each_arg params i arr ret))
    /\ forall k, In k (map fst (each_arg params i arr ret)) <->
                 In k (map fst ret)
                 \/ exists j, i <= j /\ j < i + List.length arr
                              /\ key_at params j = k.
Proof.
  induction arr as [|a rest IH]; simpl; intros i ret Hnd.
  - split; [assumption|]. intros k. split; [auto|].
    intros [H | [j [H1 [H2 _]]]]; [assumption | lia].
  - destruct (IH (S i) (set_prop (key_at params i) a ret)
                 (set_prop_NoDup _ _ _ Hnd)) as [Hnd' Hkeys].
    split; [assumption|]. intros k. rewrite Hkeys, set_prop_keys. split.
    + intros [[-> | H] | [j [H1 [H2 H3]]]].
      * right. exists i. repeat split; lia.
      * now left.
      * right. exists j. repeat split; [lia | lia | assumption].
    + intros [H | [j [H1 [H2 H3]]]].
      * left. now right.
      * destruct (Nat.eq_dec j i) as [-> | Hne].
        -- left. left. now symmetry.
        -- right. exists j. repeat split; [lia | lia | assumption].
Qed.

(** The keys of the mapping are distinct, and they are the keys of the
    argument positions: the name declared at the position, or
    ["undefined"] where no name is declared. *)
Theorem _combineObject_keys (params : list string) (arr : list value) :
  NoDup (map fst (_combineObject params arr))
  /\ forall k, In k (map fst (_combineObject params arr)) <->
               exists j, j < List.length arr /\ key_at params j = k.
Proof.
  unfold _combineObject.
  destruct (each_arg_keys params arr 0 [] (NoDup_nil _)) as [Hnd Hkeys].
  split; [assumption|]. intros k. rewrite Hkeys. simpl. split.
  - intros [[] | [j [_ [H2 H3]]]]. eauto.
  - intros [j [H1 H2]]. right. exists j. repeat split; [lia | assumption | assumption].
Qed.

(** * Further properties of the wrappers *)

(** ** What the validated function receives *)

Lemma map_by_index {A B : Type} (f : A -> B) (d : A) (l : list A) :
  map f l = map (fun i => f (nth i l d)) (seq 0 (List.length l)).
Proof.
  induction l as [|a l IH]; simpl; [reflexivity|].
  f_equal. rewrite <- seq_shift, map_map. exact IH.
Qed.

Lemma get_new_object (h : heap) (fs : fields) (k : string) :
  get (h ++ [CObj fs])%list (VRef (List.length h)) k = assoc k fs.
Proof.
  unfold get, get_cell. rewrite nth_middle. reflexivity.
Qed.

Lemma _combineObject_positional params arr i :
  NoDup params ->
  List.length arr <= List.length params \/ ~ In "undefined" params ->
  i < List.length params ->
  assoc (nth i params "") (_combineObject params arr) = nth i arr VUndefined.
Proof.
  intros Hnd Hextra Hi.
  assert (Hname : nth_error params i = Some (nth i params ""))
    by (now apply nth_error_nth').
  destruct (Nat.lt_ge_cases i (List.length arr)) as [Hlt | Hge].
  - assert (Hkey : key_at params i = nth i params "")
      by (unfold key_at; now rewrite Hname).
    unfold _combineObject.
    apply each_arg_last_wins with (i := i);
      [lia | rewrite Nat.sub_0_r; now apply nth_error_nth' | exact Hkey |].
    intros j Hj1 Hj2. simpl in Hj2.
    destruct (Nat.lt_ge_cases j (List.length params)) as [Hjp | Hjp].
    + apply NoDup_key_at with (i := i); auto. lia.
    + destruct Hextra as [Hlen | Hundef]; [lia|].
      unfold key_at. rewrite (proj2 (nth_error_None params j) Hjp).
      intros Heq. apply Hundef. rewrite Heq. apply nth_In. exact Hi.
  - rewrite (nth_overflow arr VUndefined Hge).
    unfold _combineObject. rewrite each_arg_untouched; [reflexivity|].
    intros j _ Hj. simpl in Hj.
    apply NoDup_key_at with (i := i); auto; lia.
Qed.

(** ** The records of one invocation *)

Section InvocationFacts.

Variable Schema : Type.
Variable inspect : option json -> Z -> string.
Variable user_then : value -> state -> state * completion.

(** The wrapper, from the state in which the wrapped function is called. *)
Lemma logDecorator_from_entered (m : operation) lg (opts : method Schema) args st :
  exists formattedInput,
    calls (entered inspect lg opts args st)
    = (calls st ++ [debug_call lg (_seqId st + 1)
                               ("ENTER " ++ methodName opts ++ ":")
                               formattedInput])%list
    /\ _seqId (entered inspect lg opts args st) = (_seqId st + 1)%Z
    /\ _config (entered inspect lg opts args st) = _config st
    /\ _loggerFactory (entered inspect lg opts args st) = _loggerFactory st
    /\ logDecorator inspect user_then m lg opts args st
       = match m args (entered inspect lg opts args st) with
         | (st4, Throw e) => (emit (error_call lg e) st4, Throw e)
         | (st4, ReturnPromise (Fulfilled asyncResult)) =>
             match logExit inspect lg opts asyncResult (_seqId st + 1) st4 with
             | Ok st5 => (st5, ReturnPromise (Fulfilled asyncResult))
             | Raise e =>
                 (emit (error_id_call lg (_seqId st + 1)
                          ("ERROR " ++ methodName opts ++ ": " ++ formattedInput
                           ++ " " ++ String (Ascii.ascii_of_nat 10) "") e) st4,
                  ReturnPromise (Rejected e))
             end
         | (st4, ReturnPromise (Rejected e)) =>
             (emit (error_id_call lg (_seqId st + 1)
                      ("ERROR " ++ methodName opts ++ ": " ++ formattedInput
                       ++ " " ++ String (Ascii.ascii_of_nat 10) "") e) st4,
              ReturnPromise (Rejected e))
         | (st4, ReturnPromise Pending) => (st4, ReturnPromise Pending)
         | (st4, Return r) =>
             if truthy r && isFunction (get (store st4) r "then")
             then user_then r st4
             else match logExit inspect lg opts r (_seqId st + 1) st4 with
                  | Ok st5 => (st5, Return r)
                  | Raise e => (st4, Throw e)
                  end
         end.
Proof.
  unfold entered, logDecorator.
  destruct (params opts) as [|p ps] eqn:Hp.
  - eexists. repeat split.
  - unfold new_object.
    match goal with
    | |- context [serialize_in inspect ?s (VRef ?l)] =>
        destruct (serialize_in_ref inspect s l) as [text Ht]; rewrite Ht
    end.
    eexists. repeat split.
Qed.

(** With [removeOutput] the result is never given to the serializer: the
    EXIT record holds ['<removed>'] and the result comes back as it is,
    whatever it is, a function included. *)
Theorem removeOutput_hides_result
        (m : operation) (lg : logger) (opts : method Schema)
        (args : list value) (st st4 : state) (c : completion) (r : value)
        (Hremove : removeOutput opts = true)
        (Hcall : m args (entered inspect lg opts args st) = (st4, c))
        (Hresult : c = Return r /\ thenable st4 c = false
                   \/ c = ReturnPromise (Fulfilled r)) :
  logDecorator inspect user_then m lg opts args st
  = (emit (debug_call lg (_seqId st + 1) (" EXIT " ++ methodName opts ++ ":")
                      "<removed>") st4,
     c).
Proof.
  destruct (logDecorator_from_entered m lg opts args st)
    as [fi [_ [_ [_ [_ H]]]]].
  rewrite H, Hcall. unfold logExit. rewrite Hremove.
  destruct Hresult as [[-> Hthen] | ->].
  - simpl in Hthen. rewrite Hthen. reflexivity.
  - reflexivity.
Qed.

(** One ENTER record is written before the wrapped function is called and
    at most one record after it; each is written through the logger of the
    wrapper and carries the id of the invocation where it carries an id.
    The wrapper leaves the counter, the heap and the configuration as the
    wrapped function left them. *)
Theorem logDecorator_records
        (m : operation) (lg : logger) (opts : method Schema)
        (args : list value) (st st4 : state) (c : completion)
        (Hcall : m args (entered inspect lg opts args st) = (st4, c))
        (Hplain : thenable st4 c = false) :
  exists enter tail,
    calls (entered inspect lg opts args st) = (calls st ++ [enter])%list
    /\ record_of lg (_seqId st + 1) enter
    /\ calls (fst (logDecorator inspect user_then m lg opts args st))
       = (calls st4 ++ tail)%list
    /\ List.length tail <= 1
    /\ Forall (record_of lg (_seqId st + 1)) tail
    /\ _seqId (fst (logDecorator inspect user_then m lg opts args st)) = _seqId st4
    /\ store (fst (logDecorator inspect user_then m lg opts args st)) = store st4
    /\ _config (fst (logDecorator inspect user_then m lg opts args st))
       = _config st4.
Proof.
  destruct (logDecorator_from_entered m lg opts args st)
    as [fi [Henter [_ [_ [_ H]]]]].
  exists (debug_call lg (_seqId st + 1) ("ENTER " ++ methodName opts ++ ":") fi).
  rewrite H, Hcall. clear H.
  assert (Hexit : forall r,
             match logExit inspect lg opts r (_seqId st + 1) st4 with
             | Ok st5 => exists rec, st5 = emit rec st4
                                     /\ record_of lg (_seqId st + 1) rec
             | Raise _ => True
             end).
  { intros r. unfold logExit.
    destruct (if removeOutput opts then Ok "<removed>"
              else serialize_in inspect st4 r); [|exact I].
    eexists. split; [reflexivity|]. simpl. auto. }
  destruct c as [r | [r | e |] | e].
  - simpl in Hplain. rewrite Hplain. specialize (Hexit r).
    destruct (logExit inspect lg opts r (_seqId st + 1) st4) as [st5|e].
    + destruct Hexit as [rec [-> Hrec]]. exists [rec]. simpl.
      repeat split; simpl; auto; repeat (constructor; simpl; auto).
    + exists []. simpl. rewrite app_nil_r. repeat split; simpl; auto; repeat (constructor; simpl; auto).
  - specialize (Hexit r).
    destruct (logExit inspect lg opts r (_seqId st + 1) st4) as [st5|e].
    + destruct Hexit as [rec [-> Hrec]]. exists [rec]. simpl.
      repeat split; simpl; auto; repeat (constructor; simpl; auto).
    + eexists [_]. simpl. repeat split; simpl; auto; repeat (constructor; simpl; auto).
  - eexists [_]. simpl. repeat split; simpl; auto; repeat (constructor; simpl; auto).
  - exists []. simpl. rewrite app_nil_r. repeat split; simpl; auto; repeat (constructor; simpl; auto).
  - eexists [_]. simpl. repeat split; simpl; auto; repeat (constructor; simpl; auto).
Qed.

End InvocationFacts.

Lemma removeOutput_hides_result_witness :
  logDecorator inspect_blank user_then_none (fun _ s => (s, Return (VFun 0)))
               BarService_logger hashPassword_method [VStr "secret"] initial_state
  = (emit (debug_call BarService_logger 1 " EXIT hashPassword:" "<removed>")
          (entered inspect_blank BarService_logger hashPassword_method
                   [VStr "secret"] initial_state),
     Return (VFun 0)).
Proof.
  apply (removeOutput_hides_result
           unit inspect_blank user_then_none (fun _ s => (s, Return (VFun 0)))
           BarService_logger hashPassword_method [VStr "secret"] initial_state
           (entered inspect_blank BarService_logger hashPassword_method
                    [VStr "secret"] initial_state)
           (Return (VFun 0)) (VFun 0)).
  - reflexivity.
  - reflexivity.
  - left. split; reflexivity.
Defined.

Lemma logDecorator_records_witness :
  exists enter tail,
    calls (entered inspect_blank BarService_logger foo_method [] initial_state)
    = ([] ++ [enter])%list
    /\ record_of BarService_logger 1 enter
    /\ calls (fst (logDecorator inspect_blank user_then_none
                                (fun _ s => (s, Throw SyntaxError))
                                BarService_logger foo_method [] initial_state))
       = (calls (entered inspect_blank BarService_logger foo_method []
                         initial_state) ++ tail)%list
    /\ List.length tail <= 1.
Proof.
  destruct (logDecorator_records
              unit inspect_blank user_then_none
              (fun _ s => (s, Throw SyntaxError))
              BarService_logger foo_method [] initial_state
              (entered inspect_blank BarService_logger foo_method [] initial_state)
              (Throw SyntaxError) eq_refl eq_refl)
    as [enter [tail [H1 [H2 [H3 [H4 _]]]]]].
  exists enter, tail. repeat split; assumption.
Defined.

Lemma invoke_all_counter_witness :
  _seqId (invoke_all
            [ (logDecorator inspect_blank user_then_none (fn foo_method)
                            BarService_logger foo_method, []);
              (logDecorator inspect_blank user_then_none (fn hashPassword_method)
                            BarService_logger hashPassword_method, [VStr "x"]) ]
            initial_state)
  = (0 + 2)%Z.
Proof.
  apply (invoke_all_counter unit inspect_blank user_then_none).
  - reflexivity.
  - repeat constructor.
    + exists (fn foo_method), BarService_logger, foo_method.
      split; [reflexivity | intros a s; reflexivity].
    + exists (fn hashPassword_method), BarService_logger, hashPassword_method.
      split; [reflexivity | intros a s; reflexivity].
Defined.

(** ** Successive calls of [configure] *)

Lemma extend_extend {A : Type} (old : A) (a b : option A) :
  extend (extend old a) b
  = extend old (match b with Some x => Some x | None => a end).
Proof. destruct b; reflexivity. Qed.

(** Two calls of [configure] are one call with the keys of both, the
    second call winning where both give a key; a call without keys changes
    nothing. *)
Theorem configure_configure (a b : options) (st : state) :
  configure b (configure a st) = configure (override a b) st
  /\ configure (mkOptions None None None None None) st = st.
Proof.
  split.
  - unfold configure, override. simpl. rewrite !extend_extend. reflexivity.
  - destruct st as [[rf dbg dp mal] lf n hp cs]. reflexivity.
Qed.

Lemma logDecorator_after_reset_witness :
  _seqId (fst (logDecorator inspect_blank user_then_none (fn foo_method)
                            BarService_logger foo_method []
                            (resetId (mkState default_config default_loggerFactory
                                              41 [] []))))
  = 1%Z.
Proof.
  apply (logDecorator_after_reset unit inspect_blank user_then_none).
  - intros a s. reflexivity.
  - intros v s. reflexivity.
Defined.

(** ** The elements of a short array *)







(** ** The exported serializer on plain data *)

(** [_serializeObject] gives a rendering, and never raises, at every value
    other than a function: [undefined], [null], a boolean, an integer, a
    string, and an object or array whose members are such values, functions,
    objects or arrays, cyclic or not; and at a function too when the name
    [""] is redacted.  The rendering is [util.inspect] of the sanitized
    value, which is [undefined] exactly for [undefined].  (Symbols, BigInts,
    accessors and [toJSON] methods are outside the values considered.) *)
Theorem _serializeObject_renders
        (cfg : config) (h : heap) (inspect : option json -> Z -> string)
        (v : value)
        (Hv : isFunction v = false \/ includes (removeFields cfg) "" = true) :
  exists x,
    _sanitizeObject cfg h v = Ok x
    /\ _serializeObject cfg h inspect v = Ok (inspect x (depth cfg))
    /\ (x = None <-> v = VUndefined).
Proof.
  unfold _serializeObject.
  destruct (_sanitizeObject cfg h v) as [x|e] eqn:Hs.
  - exists x. split; [reflexivity | split; [reflexivity|]]. split.
    + intros ->. unfold _sanitizeObject in Hs.
      destruct v; try reflexivity;
        destruct (JSON_stringify cfg h _) as [[seen [j|]]|]; discriminate.
    + intros ->. simpl in Hs. congruence.
  - apply _sanitizeObject_raises in Hs as [_ [Htop [f ->]]].
    destruct Hv as [Hv | Hv]; [discriminate | congruence].
Qed.

Lemma _serializeObject_renders_witness :
  exists x,
    _sanitizeObject default_config array_heap (VRef 0) = Ok x
    /\ _serializeObject default_config array_heap inspect_line (VRef 0)
       = Ok (inspect_line x (depth default_config))
    /\ (x = None <-> VRef 0 = VUndefined).
Proof.
  apply (_serializeObject_renders default_config array_heap inspect_line (VRef 0)).
  left. reflexivity.
Defined.

(** ** The compiled copy *)

(** [_sanitizeObject] of [dist/decorator.js] has no test for [undefined]:
    when the name [""] is not redacted it raises [SyntaxError] at
    [undefined], where the copy under [src] returns [undefined]; at every
    other value the two copies give the same result. *)
Theorem _sanitizeObject_dist_undefined (cfg : config) (h : heap) (v : value)
        (Htop : includes (removeFields cfg) "" = false) :
  _sanitizeObject_dist cfg h VUndefined = Raise SyntaxError
  /\ _sanitizeObject cfg h VUndefined = Ok None
  /\ (v <> VUndefined -> _sanitizeObject_dist cfg h v = _sanitizeObject cfg h v).
Proof.
  split; [|split].
  - unfold _sanitizeObject_dist, JSON_stringify; simpl.
    unfold replacer; simpl. rewrite Htop. reflexivity.
  - reflexivity.
  - intros Hv. destruct v; try reflexivity. contradiction.
Qed.

Lemma _sanitizeObject_dist_undefined_witness :
  _sanitizeObject_dist default_config [] VUndefined = Raise SyntaxError
  /\ _sanitizeObject default_config [] VUndefined = Ok None
  /\ (VNum 1 <> VUndefined ->
      _sanitizeObject_dist default_config [] (VNum 1)
      = _sanitizeObject default_config [] (VNum 1)).
Proof.
  apply (_sanitizeObject_dist_undefined default_config [] (VNum 1)).
  reflexivity.
Defined.

(** ** The arguments the validated function receives *)

Lemma validateDecorator_copy
      (Schema : Type)
      (Joi_attempt : value -> option Schema -> heap -> heap * result value)
      (m : method Schema) (args : list value) (st : state)
      (h2 : heap) (normalized : value) :
  NoDup (params m) ->
  List.length args <= List.length (params m) \/ ~ In "undefined" (params m) ->
  Joi_attempt (VRef (List.length (store st))) (schema m)
              (store st ++ [CObj (_combineObject (params m) args)])%list
  = (h2, Ok normalized) ->
  (forall p, In p (params m) ->
             get h2 normalized p = assoc p (_combineObject (params m) args)) ->
  validateDecorator Joi_attempt m args st
  = fn m (positional (List.length (params m)) args) (set_store h2 st).
Proof.
  intros Hnd Hextra Hjoi Hcopy.
  unfold validateDecorator, new_object. rewrite Hjoi. f_equal.
  unfold positional. rewrite (map_by_index _ "" (params m)).
  apply map_ext_in. intros i Hin. apply in_seq in Hin.
  rewrite Hcopy by (apply nth_In; lia).
  apply _combineObject_positional; auto. lia.
Qed.

(** When the parameter names are distinct, and there are no more
    arguments than parameters or no parameter is named [undefined], and
    [Joi.attempt] returns an object (the one it was given or a copy) whose
    members under the parameter names are those of the object it was given:
    the function is called with as many arguments as it declares
    parameters, the arguments in their positions, [undefined] for a
    parameter without argument, and no argument beyond the parameters. *)
Theorem validateDecorator_positional
        (Schema : Type)
        (Joi_attempt : value -> option Schema -> heap -> heap * result value)
        (m : method Schema) (args : list value) (st : state)
        (h2 : heap) (normalized : value)
        (Hnd : NoDup (params m))
        (Hextra : List.length args <= List.length (params m)
                  \/ ~ In "undefined" (params m))
        (Hjoi : Joi_attempt (VRef (List.length (store st))) (schema m)
                            (store st ++ [CObj (_combineObject (params m) args)])%list
                = (h2, Ok normalized))
        (Hcopy : forall p, In p (params m) ->
                           get h2 normalized p
                           = assoc p (_combineObject (params m) args)) :
  validateDecorator Joi_attempt m args st
  = fn m (positional (List.length (params m)) args) (set_store h2 st).
Proof.
  now apply validateDecorator_copy with (normalized := normalized).
Qed.

Lemma validateDecorator_positional_witness :
  validateDecorator Joi_copies (add_method true) [VNum 1] initial_state
  = fn (add_method true) [VNum 1; VUndefined]
       (set_store [CObj [("a", VNum 1)]; CObj [("a", VNum 1)]] initial_state)
  /\ validateDecorator Joi_accepts (add_method true) [VNum 1; VNum 2; VNum 3]
                       initial_state
     = fn (add_method true) [VNum 1; VNum 2]
          (set_store [CObj [("a", VNum 1); ("b", VNum 2); ("undefined", VNum 3)]]
                     initial_state).
Proof.
  assert (Hnd : NoDup (params (add_method true))).
  { repeat constructor; simpl; intuition discriminate. }
  assert (Hundef : ~ In "undefined" (params (add_method true))).
  { simpl. intuition discriminate. }
  split.
  - apply (validateDecorator_positional unit Joi_copies (add_method true)
             [VNum 1] initial_state
             [CObj [("a", VNum 1)]; CObj [("a", VNum 1)]] (VRef 1)
             Hnd (or_intror Hundef) eq_refl).
    intros p [<- | [<- | []]]; reflexivity.
  - apply (validateDecorator_positional unit Joi_accepts (add_method true)
             [VNum 1; VNum 2; VNum 3] initial_state
             [CObj [("a", VNum 1); ("b", VNum 2); ("undefined", VNum 3)]] (VRef 0)
             Hnd (or_intror Hundef) eq_refl).
    intros p [<- | [<- | []]]; reflexivity.
Defined.

(** ** What the log wrapper throws and returns *)

Lemma entered_calls
      (Schema : Type) (inspect : option json -> Z -> string)
      (lg : logger) (opts : method Schema) (args : list value) (st : state)
      (payload : string) :
  formattedInput (_config st) (store st) inspect opts args = Ok payload ->
  calls (entered inspect lg opts args st)
  = (calls st ++ [debug_call lg (_seqId st + 1)
                             ("ENTER " ++ methodName opts ++ ":") payload])%list.
Proof.
  unfold formattedInput, entered, logDecorator.
  destruct (params opts) as [|p ps].
  - intros H. inversion H; subst. reflexivity.
  - unfold new_object, serialize_in. simpl. intros H. rewrite H. reflexivity.
Qed.

(** For arguments that the serializer renders, so that the wrapped function
    is called: whatever the wrapper throws was thrown by the wrapped
    function, or raised by the serializer at a result without [then] method
    while [removeOutput] is unset, or thrown by the [then] chain of a result
    with a [then] method. *)
Theorem logDecorator_throws
        (Schema : Type) (inspect : option json -> Z -> string)
        (user_then : value -> state -> state * completion)
        (m : operation) (lg : logger) (opts : method Schema)
        (args : list value) (st st4 : state) (c : completion) (e : exn)
        (payload : string)
        (Henter : formattedInput (_config st) (store st) inspect opts args
                  = Ok payload)
        (Hcall : m args (entered inspect lg opts args st) = (st4, c))
        (Hthrow : snd (logDecorator inspect user_then m lg opts args st) = Throw e) :
  c = Throw e
  \/ (exists r, c = Return r /\ thenable st4 c = false
                /\ removeOutput opts = false
                /\ _serializeObject (_config st4) (store st4) inspect r = Raise e)
  \/ (exists r, c = Return r /\ thenable st4 c = true
                /\ snd (user_then r st4) = Throw e).
Proof.
  destruct (logDecorator_from_entered Schema inspect user_then m lg opts args st)
    as [fi [_ [_ [_ [_ H]]]]].
  rewrite H, Hcall in Hthrow. clear H.
  destruct c as [r | [r | e' |] | e'].
  - destruct (thenable st4 (Return r)) eqn:Hth; simpl in Hth; rewrite Hth in Hthrow.
    + right. right. exists r. auto.
    + right. left. exists r. unfold logExit in Hthrow.
      destruct (removeOutput opts) eqn:Hro; [discriminate|].
      unfold serialize_in in Hthrow.
      destruct (_serializeObject (_config st4) (store st4) inspect r)
        as [text|e'] eqn:Hs; [discriminate|].
      simpl in Hthrow. inversion Hthrow; subst e'. auto.
  - destruct (logExit inspect lg opts r (_seqId st + 1) st4); discriminate.
  - discriminate.
  - discriminate.
  - simpl in Hthrow. inversion Hthrow; subst. now left.
Qed.

Lemma logDecorator_throws_witness :
  let entry := entered inspect_line BarService_logger foo_method
                       [VNum 1; VStr "x"] initial_state in
  snd (logDecorator inspect_line user_then_none
                    (fun _ s => (s, Return (VFun 0)))
                    BarService_logger foo_method [VNum 1; VStr "x"] initial_state)
  = Throw SyntaxError
  /\ (Return (VFun 0) = Throw SyntaxError
      \/ (exists r, Return (VFun 0) = Return r
                    /\ thenable entry (Return (VFun 0)) = false
                    /\ removeOutput foo_method = false
                    /\ _serializeObject (_config entry) (store entry)
                                        inspect_line r
                       = Raise SyntaxError)
      \/ (exists r, Return (VFun 0) = Return r
                    /\ thenable entry (Return (VFun 0)) = true
                    /\ snd (user_then_none r entry) = Throw SyntaxError)).
Proof.
  intros entry. split; [reflexivity|].
  apply (logDecorator_throws
           unit inspect_line user_then_none (fun _ s => (s, Return (VFun 0)))
           BarService_logger foo_method [VNum 1; VStr "x"] initial_state
           entry (Return (VFun 0)) SyntaxError "{ req: 1, res: 'x' }").
  - reflexivity.
  - reflexivity.
  - reflexivity.
Defined.

(** ** A valid call through both wrappers *)

(** A call of the decorated operation when the parameter names are
    distinct, there are no more arguments than parameters or no parameter is
    named [undefined], the serializer renders the arguments as [input],
    [Joi.attempt] accepts and returns an object (the one it was given or a
    copy) whose members under the parameter names are those it was given,
    the function returns a result without [then] method, and the result is
    hidden by [removeOutput] or rendered by the serializer as [output]: the
    ENTER record carries [input], the function is called once on the
    arguments in the declared positions, the operation returns the
    function's result, and the EXIT record carries the id of the invocation
    and [output]. *)
Theorem decorated_call_returns
        (Schema : Type) (inspect : option json -> Z -> string)
        (Joi_attempt : value -> option Schema -> heap -> heap * result value)
        (user_then : value -> state -> state * completion)
        (m : method Schema) (lg : logger) (args : list value)
        (st st4 : state) (h2 : heap) (normalized r : value)
        (input output : string)
        (Hnd : NoDup (params m))
        (Hextra : List.length args <= List.length (params m)
                  \/ ~ In "undefined" (params m))
        (Henter : formattedInput (_config st) (store st) inspect m args = Ok input)
        (Hjoi : Joi_attempt
                  (VRef (List.length (store (entered inspect lg m args st))))
                  (schema m)
                  (store (entered inspect lg m args st)
                     ++ [CObj (_combineObject (params m) args)])%list
                = (h2, Ok normalized))
        (Hcopy : forall p, In p (params m) ->
                           get h2 normalized p
                           = assoc p (_combineObject (params m) args))
        (Hfn : fn m (positional (List.length (params m)) args)
                  (set_store h2 (entered inspect lg m args st))
               = (st4, Return r))
        (Hplain : thenable st4 (Return r) = false)
        (Hexit : formattedOutput (_config st4) (store st4) inspect m r
                 = Ok output) :
  calls (entered inspect lg m args st)
  = (calls st ++ [debug_call lg (_seqId st + 1)
                             ("ENTER " ++ methodName m ++ ":") input])%list
  /\ logDecorator inspect user_then (validateDecorator Joi_attempt m) lg m args st
     = (emit (debug_call lg (_seqId st + 1) (" EXIT " ++ methodName m ++ ":")
                         output) st4,
        Return r).
Proof.
  split; [now apply entered_calls|].
  destruct (logDecorator_from_entered Schema inspect user_then
              (validateDecorator Joi_attempt m) lg m args st)
    as [fi [_ [_ [_ [_ H]]]]].
  rewrite H. clear H.
  rewrite (validateDecorator_copy Schema Joi_attempt m args
             (entered inspect lg m args st) h2 normalized Hnd Hextra Hjoi Hcopy).
  rewrite Hfn. simpl in Hplain. rewrite Hplain.
  unfold logExit, serialize_in. unfold formattedOutput in Hexit.
  rewrite Hexit. reflexivity.
Qed.

Lemma decorated_call_returns_witness :
  let entry := entered inspect_line BarService_logger (add_method true)
                       [VNum 1; VNum 2] initial_state in
  calls entry = [debug_call BarService_logger 1 "ENTER add:" "{ a: 1, b: 2 }"]
  /\ logDecorator inspect_line user_then_none
                  (validateDecorator Joi_copies (add_method true))
                  BarService_logger (add_method true) [VNum 1; VNum 2]
                  initial_state
     = (emit (debug_call BarService_logger 1 " EXIT add:" "null")
             (set_store [CObj [("a", VNum 1); ("b", VNum 2)];
                         CObj [("a", VNum 1); ("b", VNum 2)];
                         CObj [("a", VNum 1); ("b", VNum 2)]] entry),
        Return VNull).
Proof.
  intros entry.
  apply (decorated_call_returns unit inspect_line Joi_copies user_then_none
                                (add_method true) BarService_logger
                                [VNum 1; VNum 2] initial_state
                                (set_store [CObj [("a", VNum 1); ("b", VNum 2)];
                                            CObj [("a", VNum 1); ("b", VNum 2)];
                                            CObj [("a", VNum 1); ("b", VNum 2)]]
                                           entry)
                                [CObj [("a", VNum 1); ("b", VNum 2)];
                                 CObj [("a", VNum 1); ("b", VNum 2)];
                                 CObj [("a", VNum 1); ("b", VNum 2)]]
                                (VRef 2) VNull "{ a: 1, b: 2 }" "null").
  - repeat constructor; simpl; intuition discriminate.
  - left. simpl. lia.
  - reflexivity.
  - reflexivity.
  - intros p [<- | [<- | []]]; reflexivity.
  - reflexivity.
  - reflexivity.
  - reflexivity.
Defined.

(** ** [configure] and the calls made after it *)


